(** * Food manufacture: the multi-period blending model of
      [food_manufacture/model.py], embedded and verified.

    The Python program assembles a Pyomo [ConcreteModel] from three inputs
    (an oil catalog, a price table, a dictionary of scalar parameters) and a
    mode flag.  The embedding below follows [FoodManufactureModel.build]
    statement by statement:

    - Python floats and ints are exact rationals ([Q]);
    - a Pyomo expression is a small syntax tree ([expr]); a native Python
      number is the leaf [Num];
    - every Python exception that [build] can raise is a value of [exn],
      and fallible code lives in the error monad [M];
    - a feasible assignment is a map from model variables to rationals that
      satisfies every declared domain, bound and constraint. *)

From Stdlib Require Import ZArith QArith List String Bool Lia Lqa.
From stdpp Require Import base gmap strings.
Import ListNotations.

Local Open Scope string_scope.
Local Open Scope Z_scope.
Local Open Scope Q_scope.

(** ** Exceptions and the error monad *)

(** The key of a failed lookup: a dictionary key or column label, a label
    of the price table's index, or the index tuple of a Pyomo variable. *)
Inductive key :=
| KStr (s : string)
| KInt (t : Z)
| KPair (o : string) (t : Z).

(** [NotScalar k]: a lookup by the repeated label [k] yields a pandas
    Series where the rule needs a number; the rule that uses it raises. *)
Inductive exn :=
| KeyError (k : key)
| ValueError (component : string)
| IndexError (component : string)
| AttributeError (attribute : string)
| NotScalar (k : key).

Definition M (A : Type) : Type := (exn + A)%type.

Definition ret {A} (a : A) : M A := inr a.
Definition raise {A} (e : exn) : M A := inl e.
Definition bind {A B} (c : M A) (k : A -> M B) : M B :=
  match c with
  | inl e => inl e
  | inr a => k a
  end.

Notation "x <- c ;; k" := (bind c (fun x => k))
  (at level 100, c at next level, right associativity).

Fixpoint mapM {A B} (f : A -> M B) (l : list A) : M (list B) :=
  match l with
  | [] => ret []
  | x :: l' => y <- f x ;; ys <- mapM f l' ;; ret (y :: ys)
  end.

(** ** Pyomo expressions and Python arithmetic *)

Inductive var :=
| Buy (o : string) (t : Z)
| Use (o : string) (t : Z)
| Stock (o : string) (t : Z)
| Produce (t : Z)
| IsUsed (o : string) (t : Z).

Inductive expr :=
| Num (q : Q)
| V (v : var)
| Add (a b : expr)
| Sub (a b : expr)
| Mul (a b : expr).

Inductive rel := Eq | Le | Ge.

Record constraint := { lhs : expr; op : rel; rhs : expr }.

(** What a Python comparison returns: a [bool] when both sides are native
    numbers, a Pyomo relational expression as soon as one side is not. *)
Inductive relational :=
| RBool (b : bool)
| RCon (c : constraint).

(** [+], [-] and [*]: native arithmetic on two numbers, an expression node
    otherwise. *)
Definition py_add (a b : expr) : expr :=
  match a, b with
  | Num x, Num y => Num (x + y)
  | _, _ => Add a b
  end.

Definition py_sub (a b : expr) : expr :=
  match a, b with
  | Num x, Num y => Num (x - y)
  | _, _ => Sub a b
  end.

Definition py_mul (a b : expr) : expr :=
  match a, b with
  | Num x, Num y => Num (x * y)
  | _, _ => Mul a b
  end.

Definition py_cmp (r : rel) (a b : expr) : relational :=
  match a, b with
  | Num x, Num y =>
      RBool match r with
            | Eq => Qeq_bool x y
            | Le => Qle_bool x y
            | Ge => Qle_bool y x
            end
  | _, _ => RCon {| lhs := a; op := r; rhs := b |}
  end.

Definition py_eq := py_cmp Eq.
Definition py_le := py_cmp Le.
Definition py_ge := py_cmp Ge.

(** The builtin [sum]: a left fold of [+] that starts from the int [0]. *)
Definition py_sum (l : list expr) : expr := fold_left py_add l (Num 0).

(** ** Reference data: the two DataFrames and the parameter dictionary *)

(** One row of the oil catalog; the frame is indexed by [id]. *)
Record oil_row := { id : string; type : string; hardness : Q }.

Definition oils_df := list oil_row.

(** [oils.index] *)
Definition oils_index (oils : oils_df) : list string := map id oils.

(** [oils.loc[o, 'hardness']]: a number when exactly one row carries the
    label [o]; [KeyError] when none does; with several rows the lookup is a
    Series, and the product and comparison built on it raise. *)
Definition oils_loc_hardness (oils : oils_df) (o : string) : M Q :=
  match List.filter (fun r => String.eqb (id r) o) oils with
  | [] => raise (KeyError (KStr o))
  | [r] => ret (hardness r)
  | _ :: _ :: _ => raise (NotScalar (KStr o))
  end.

(** [oils[oils['type'] == oil_type].index] *)
Definition oils_of_type (oils : oils_df) (oil_type : string) : list string :=
  map id (List.filter (fun r => String.eqb (type r) oil_type) oils).

(** The price table: rows labelled by month, one column per oil. *)
Record prices_df :=
  { p_index : list Z; p_columns : list string; p_cell : Z -> string -> Q }.

(** [prices.loc[t, o]]: the column is looked up first, then the row; a
    number when each label occurs exactly once, [KeyError] for a missing
    label; a repeated label yields a Series or a frame, and the expression
    built on it raises. *)
Definition prices_loc (prices : prices_df) (t : Z) (o : string) : M Q :=
  match count_occ string_dec (p_columns prices) o with
  | 0%nat => raise (KeyError (KStr o))
  | 1%nat =>
      match count_occ Z.eq_dec (p_index prices) t with
      | 0%nat => raise (KeyError (KInt t))
      | 1%nat => ret (p_cell prices t o)
      | _ => raise (NotScalar (KInt t))
      end
  | _ => raise (NotScalar (KStr o))
  end.

(** [params[k]] on a Python dict. *)
Definition getparam (params : gmap string Q) (k : string) : M Q :=
  match params !! k with
  | Some q => ret q
  | None => raise (KeyError (KStr k))
  end.

(** ** Pyomo components *)

(** [pyo.Set(initialize=...)]: an ordered set, insertion order, a repeated
    element is added once. *)
Section OrderedSet.
Context {A : Type} (eqb : A -> A -> bool).

Fixpoint set_add_all (seen : list A) (l : list A) : list A :=
  match l with
  | [] => []
  | x :: l' =>
      if existsb (eqb x) seen then set_add_all seen l'
      else x :: set_add_all (x :: seen) l'
  end.

Definition Set_init (l : list A) : list A := set_add_all [] l.
End OrderedSet.

(** [T.first()] and [T.last()] of an ordered set. *)
Definition first (T : list Z) : M Z :=
  match T with
  | [] => raise (IndexError "T")
  | t :: _ => ret t
  end.

Fixpoint last (T : list Z) : M Z :=
  match T with
  | [] => raise (IndexError "T")
  | [t] => ret t
  | _ :: T' => last T'
  end.

Inductive domain := NonNegativeReals | Binary.

(** One scalar variable of an indexed [pyo.Var]. *)
Record VarData :=
  { vd_var : var; vd_domain : domain; vd_bounds : option (Q * Q) }.

Definition Var := list VarData.

(** The index set [m.O * m.T], first index slowest. *)
Definition cross (O : list string) (T : list Z) : list (string * Z) :=
  flat_map (fun o => map (fun t => (o, t)) T) O.

Definition Var2 (ctor : string -> Z -> var) (O : list string) (T : list Z)
    (d : domain) (b : option (Q * Q)) : Var :=
  map (fun ot => {| vd_var := ctor (fst ot) (snd ot);
                    vd_domain := d; vd_bounds := b |}) (cross O T).

Definition Var1 (ctor : Z -> var) (T : list Z)
    (d : domain) (b : option (Q * Q)) : Var :=
  map (fun t => {| vd_var := ctor t; vd_domain := d; vd_bounds := b |}) T.

Definition var_eqb (v w : var) : bool :=
  match v, w with
  | Buy o t, Buy o' t' => String.eqb o o' && Z.eqb t t'
  | Use o t, Use o' t' => String.eqb o o' && Z.eqb t t'
  | Stock o t, Stock o' t' => String.eqb o o' && Z.eqb t t'
  | Produce t, Produce t' => Z.eqb t t'
  | IsUsed o t, IsUsed o' t' => String.eqb o o' && Z.eqb t t'
  | _, _ => false
  end.

Definition var_key (v : var) : key :=
  match v with
  | Buy o t | Use o t | Stock o t | IsUsed o t => KPair o t
  | Produce t => KInt t
  end.

(** [component[index]]: the variable as an expression, or [KeyError] when
    the index is not in the component's index set. *)
Definition getitem (component : Var) (v : var) : M expr :=
  if existsb (fun d => var_eqb v (vd_var d)) component then ret (V v)
  else raise (KeyError (var_key v)).

(** The sets and variables of the model under construction: what a rule
    can reach through its [model] argument. *)
Record Block :=
  { m_T : list Z;
    m_O : list string;
    m_Buy : Var;
    m_Use : Var;
    m_Stock : Var;
    m_Produce : Var;
    m_IsUsed : option Var }.

(** [model.IsUsed[o, t]]: the attribute exists in discrete mode only. *)
Definition getitem_IsUsed (model : Block) (o : string) (t : Z) : M expr :=
  match m_IsUsed model with
  | Some c => getitem c (IsUsed o t)
  | None => raise (AttributeError "IsUsed")
  end.

Definition family (I : Type) : Type := list (I * constraint).

(** [pyo.Constraint(index, rule=rule)] on a concrete model: the rule runs
    once per index, in order; a rule that returns a plain [bool] is
    rejected with a [ValueError]. *)
Definition Constraint {I} (name : string) (index : list I)
    (rule : I -> M relational) : M (family I) :=
  mapM (fun i =>
          r <- rule i ;;
          match r with
          | RBool _ => raise (ValueError name)
          | RCon c => ret (i, c)
          end) index.

Inductive sense := minimize | maximize.

(** The constraint families of Part 2 (discrete mode only). *)
Record Logical :=
  { LinkVars : family (string * Z);
    MinThreshold : family (string * Z);
    MaxIngredients : family Z;
    LogicVeg1 : family Z;
    LogicVeg2 : family Z }.

(** The assembled [ConcreteModel]. *)
Record Model :=
  { decls : Block;
    Balance : family (string * Z);
    FinalStock : family string;
    VegCapacity : family Z;
    NonVegCapacity : family Z;
    ProductionDef : family Z;
    HardnessMin : family Z;
    HardnessMax : family Z;
    logical : option Logical;
    Objective : expr * sense }.

(** ** [FoodManufactureModel] *)

Section FoodManufactureModel.
(** [self.oils], [self.prices], [self.params] *)
Variable oils : oils_df.
Variable prices : prices_df.
Variable params : gmap string Q.

(** 1. Inventory balance *)
Definition balance_rule (model : Block) (o : string) (t : Z) : M relational :=
  t1 <- first (m_T model) ;;
  prev_stock <- (if Z.eqb t t1
                 then (q <- getparam params "initial_stock" ;; ret (Num q))
                 else getitem (m_Stock model) (Stock o (t - 1))) ;;
  s <- getitem (m_Stock model) (Stock o t) ;;
  b <- getitem (m_Buy model) (Buy o t) ;;
  u <- getitem (m_Use model) (Use o t) ;;
  ret (py_eq s (py_sub (py_add prev_stock b) u)).

(** 2. Target final stock *)
Definition final_stock_rule (model : Block) (o : string) : M relational :=
  tn <- last (m_T model) ;;
  s <- getitem (m_Stock model) (Stock o tn) ;;
  q <- getparam params "target_final_stock" ;;
  ret (py_eq s (Num q)).

(** 3. Refining capacity, grouped by the catalog's [type] column *)
Definition capacity_rule (model : Block) (t : Z) (oil_type : string)
    (limit : Q) : M relational :=
  let relevant_oils := oils_of_type oils oil_type in
  us <- mapM (fun o => getitem (m_Use model) (Use o t)) relevant_oils ;;
  ret (py_le (py_sum us) (Num limit)).

(** 4. Production definition *)
Definition production_def (model : Block) (t : Z) : M relational :=
  p <- getitem (m_Produce model) (Produce t) ;;
  us <- mapM (fun o => getitem (m_Use model) (Use o t)) (m_O model) ;;
  ret (py_eq p (py_sum us)).

(** 5. Hardness, linearised *)
Definition total_hardness (model : Block) (t : Z) : M expr :=
  hs <- mapM (fun o =>
                h <- oils_loc_hardness oils o ;;
                u <- getitem (m_Use model) (Use o t) ;;
                ret (py_mul (Num h) u)) (m_O model) ;;
  ret (py_sum hs).

Definition hardness_min_rule (model : Block) (t : Z) : M relational :=
  total <- total_hardness model t ;;
  q <- getparam params "min_hardness" ;;
  p <- getitem (m_Produce model) (Produce t) ;;
  ret (py_ge total (py_mul (Num q) p)).

Definition hardness_max_rule (model : Block) (t : Z) : M relational :=
  total <- total_hardness model t ;;
  q <- getparam params "max_hardness" ;;
  p <- getitem (m_Produce model) (Produce t) ;;
  ret (py_le total (py_mul (Num q) p)).

(** 6. Linking constraint (Big-M) *)
Definition big_m : Q := 250.

Definition link_rule (model : Block) (o : string) (t : Z) : M relational :=
  u <- getitem (m_Use model) (Use o t) ;;
  y <- getitem_IsUsed model o t ;;
  ret (py_le u (py_mul (Num big_m) y)).

(** 7. Minimum usage *)
Definition min_usage_rule (model : Block) (o : string) (t : Z) : M relational :=
  u <- getitem (m_Use model) (Use o t) ;;
  q <- getparam params "min_usage_if_used" ;;
  y <- getitem_IsUsed model o t ;;
  ret (py_ge u (py_mul (Num q) y)).

(** 8. Max ingredients *)
Definition max_ingredients_rule (model : Block) (t : Z) : M relational :=
  ys <- mapM (fun o => getitem_IsUsed model o t) (m_O model) ;;
  q <- getparam params "max_ingredients_per_month" ;;
  ret (py_le (py_sum ys) (Num q)).

(** 9. Logical dependency *)
Definition logic_veg1_rule (model : Block) (t : Z) : M relational :=
  a <- getitem_IsUsed model "VEG1" t ;;
  b <- getitem_IsUsed model "OIL3" t ;;
  ret (py_le a b).

Definition logic_veg2_rule (model : Block) (t : Z) : M relational :=
  a <- getitem_IsUsed model "VEG2" t ;;
  b <- getitem_IsUsed model "OIL3" t ;;
  ret (py_le a b).

(** Objective: revenue - purchase cost - storage cost *)
Definition objective_rule (model : Block) : M expr :=
  rs <- mapM (fun t =>
                p <- getitem (m_Produce model) (Produce t) ;;
                q <- getparam params "product_sales_price" ;;
                ret (py_mul p (Num q))) (m_T model) ;;
  let revenue := py_sum rs in
  ps <- mapM (fun ot =>
                b <- getitem (m_Buy model) (Buy (fst ot) (snd ot)) ;;
                q <- prices_loc prices (snd ot) (fst ot) ;;
                ret (py_mul b (Num q))) (cross (m_O model) (m_T model)) ;;
  let purchase_cost := py_sum ps in
  ss <- mapM (fun ot =>
                s <- getitem (m_Stock model) (Stock (fst ot) (snd ot)) ;;
                q <- getparam params "storage_cost_per_ton" ;;
                ret (py_mul s (Num q))) (cross (m_O model) (m_T model)) ;;
  let storage_cost := py_sum ss in
  ret (py_sub (py_sub revenue purchase_cost) storage_cost).

(** The sets and variables declared at the top of [build]. *)
Definition declare (use_integer_logic : bool) : M Block :=
  let T := Set_init Z.eqb (p_index prices) in
  let O := Set_init String.eqb (oils_index oils) in
  cap <- getparam params "storage_capacity_per_oil" ;;
  ret {| m_T := T;
         m_O := O;
         m_Buy := Var2 Buy O T NonNegativeReals None;
         m_Use := Var2 Use O T NonNegativeReals None;
         m_Stock := Var2 Stock O T NonNegativeReals (Some (0, cap));
         m_Produce := Var1 Produce T NonNegativeReals None;
         m_IsUsed := if use_integer_logic
                     then Some (Var2 IsUsed O T Binary None)
                     else None |}.

(** Part 2, the block under [if use_integer_logic]. *)
Definition build_logical (m : Block) : M Logical :=
  let OT := cross (m_O m) (m_T m) in
  link <- Constraint "LinkVars" OT
            (fun ot => link_rule m (fst ot) (snd ot)) ;;
  thr <- Constraint "MinThreshold" OT
           (fun ot => min_usage_rule m (fst ot) (snd ot)) ;;
  ing <- Constraint "MaxIngredients" (m_T m) (max_ingredients_rule m) ;;
  l1 <- Constraint "LogicVeg1" (m_T m) (logic_veg1_rule m) ;;
  l2 <- Constraint "LogicVeg2" (m_T m) (logic_veg2_rule m) ;;
  ret {| LinkVars := link; MinThreshold := thr; MaxIngredients := ing;
         LogicVeg1 := l1; LogicVeg2 := l2 |}.

Definition build (use_integer_logic : bool) : M Model :=
  m <- declare use_integer_logic ;;
  bal <- Constraint "Balance" (cross (m_O m) (m_T m))
           (fun ot => balance_rule m (fst ot) (snd ot)) ;;
  fin <- Constraint "FinalStock" (m_O m) (final_stock_rule m) ;;
  veg <- Constraint "VegCapacity" (m_T m)
           (fun t => limit <- getparam params "max_veg_refine_per_month" ;;
                     capacity_rule m t "Veg" limit) ;;
  nonveg <- Constraint "NonVegCapacity" (m_T m)
              (fun t => limit <- getparam params "max_nonveg_refine_per_month" ;;
                        capacity_rule m t "NonVeg" limit) ;;
  prod <- Constraint "ProductionDef" (m_T m) (production_def m) ;;
  hmin <- Constraint "HardnessMin" (m_T m) (hardness_min_rule m) ;;
  hmax <- Constraint "HardnessMax" (m_T m) (hardness_max_rule m) ;;
  part2 <- (if use_integer_logic
            then (l <- build_logical m ;; ret (Some l))
            else ret None) ;;
  obj <- objective_rule m ;;
  ret {| decls := m;
         Balance := bal; FinalStock := fin;
         VegCapacity := veg; NonVegCapacity := nonveg;
         ProductionDef := prod;
         HardnessMin := hmin; HardnessMax := hmax;
         logical := part2;
         Objective := (obj, maximize) |}.
End FoodManufactureModel.

(** ** [data.py]: the reference scenario *)

Definition load_oils_data : oils_df :=
  [ {| id := "VEG1"; type := "Veg";    hardness := 88 # 10 |};
    {| id := "VEG2"; type := "Veg";    hardness := 61 # 10 |};
    {| id := "OIL1"; type := "NonVeg"; hardness := 2 |};
    {| id := "OIL2"; type := "NonVeg"; hardness := 42 # 10 |};
    {| id := "OIL3"; type := "NonVeg"; hardness := 5 |} ].

(** A DataFrame built from a dict of columns and an explicit index. *)
Definition frame_of_columns (index : list Z) (cols : list (string * list Q))
    : prices_df :=
  {| p_index := index;
     p_columns := map fst cols;
     p_cell := fun t o =>
       match find (fun c => String.eqb (fst c) o) cols with
       | Some c =>
           (fix at_ (ix : list Z) (col : list Q) : Q :=
              match ix, col with
              | i :: ix', q :: col' => if Z.eqb i t then q else at_ ix' col'
              | _, _ => 0
              end) index (snd c)
       | None => 0
       end |}.

Definition load_market_prices : prices_df :=
  frame_of_columns [1; 2; 3; 4; 5; 6]%Z
    [ ("VEG1", [110; 130; 110; 120; 100; 90]);
      ("VEG2", [120; 130; 140; 110; 120; 100]);
      ("OIL1", [130; 110; 130; 120; 150; 140]);
      ("OIL2", [110; 90; 100; 120; 110; 80]);
      ("OIL3", [115; 115; 95; 125; 105; 135]) ].

Definition get_parameters : gmap string Q :=
  list_to_map
    [ ("storage_cost_per_ton", 5);
      ("product_sales_price", 150);
      ("max_veg_refine_per_month", 200);
      ("max_nonveg_refine_per_month", 250);
      ("storage_capacity_per_oil", 1000);
      ("initial_stock", 500);
      ("target_final_stock", 500);
      ("min_hardness", 3);
      ("max_hardness", 6);
      ("min_usage_if_used", 20);
      ("max_ingredients_per_month", 3) ].

(** ** [FoodManufactureModel] as an object: [__init__], [build], [solve] *)

(** One row of [result_data]. *)
Record result_row :=
  { Month : Z; Oil : string; row_Buy : Q; row_Use : Q; row_Stock : Q }.

(** The instance attributes, together with the values that the solver
    loads into the variables of [self.model]. *)
Record Instance :=
  { self_oils : oils_df;
    self_prices : prices_df;
    self_params : gmap string Q;
    self_model : option Model;
    self_values : var -> option Q;
    self_result_data : list result_row }.

Definition init (oils : oils_df) (prices : prices_df) (params : gmap string Q)
    : Instance :=
  {| self_oils := oils; self_prices := prices; self_params := params;
     self_model := None;
     self_values := fun _ => None;
     self_result_data := [] |}.

(** The method [build]: [self.model] is assigned on the last line, so an
    exception leaves the instance as it was. *)
Definition build_method (self : Instance) (use_integer_logic : bool)
    : Instance * option exn :=
  match build (self_oils self) (self_prices self) (self_params self)
              use_integer_logic with
  | inl e => (self, Some e)
  | inr m =>
      ({| self_oils := self_oils self;
          self_prices := self_prices self;
          self_params := self_params self;
          self_model := Some m;
          self_values := fun _ => None;
          self_result_data := self_result_data self |}, None)
  end.

(** [pyo.value(x)] of a variable: an error while the variable holds no
    value. *)
Definition value (values : var -> option Q) (v : var) : M Q :=
  match values v with
  | Some q => ret q
  | None => raise (ValueError "value")
  end.

Section Solve.
(** The solver is an external collaborator: given [self.model] (which is
    [None] before a successful [build]) it either fails or returns its
    result object and loads a value into the model's variables. *)
Variable results : Type.
Variable solver : option Model -> M (results * (var -> option Q)).

(** The extraction loop of [solve]: [for t in T: for o in O: append]. *)
Definition extract (m : Model) (values : var -> option Q)
    : M (list result_row) :=
  rows <- mapM (fun t =>
            mapM (fun o =>
              b <- value values (Buy o t) ;;
              u <- value values (Use o t) ;;
              s <- value values (Stock o t) ;;
              ret {| Month := t; Oil := o;
                     row_Buy := b; row_Use := u; row_Stock := s |})
              (m_O (decls m)))
            (m_T (decls m)) ;;
  ret (concat rows).

Definition solve (self : Instance) : Instance * M results :=
  match solver (self_model self) with
  | inl e => (self, inl e)
  | inr (result, values) =>
      match self_model self with
      | None =>
          (* [self.model.T] on [None] *)
          (self, raise (AttributeError "T"))
      | Some m =>
          let loaded :=
            {| self_oils := self_oils self;
               self_prices := self_prices self;
               self_params := self_params self;
               self_model := Some m;
               self_values := values;
               self_result_data := self_result_data self |} in
          match extract m values with
          | inl e => (loaded, inl e)
          | inr rows =>
              ({| self_oils := self_oils self;
                  self_prices := self_prices self;
                  self_params := self_params self;
                  self_model := Some m;
                  self_values := values;
                  self_result_data := rows |}, ret result)
          end
      end
  end.
End Solve.

(** ** Assignments and feasibility *)

Definition assignment := var -> Q.

Fixpoint eval (rho : assignment) (e : expr) : Q :=
  match e with
  | Num q => q
  | V v => rho v
  | Add a b => eval rho a + eval rho b
  | Sub a b => eval rho a - eval rho b
  | Mul a b => eval rho a * eval rho b
  end.

Definition sat (rho : assignment) (c : constraint) : Prop :=
  match op c with
  | Eq => eval rho (lhs c) == eval rho (rhs c)
  | Le => eval rho (lhs c) <= eval rho (rhs c)
  | Ge => eval rho (rhs c) <= eval rho (lhs c)
  end.

Definition in_domain (d : domain) (x : Q) : Prop :=
  match d with
  | NonNegativeReals => 0 <= x
  | Binary => x == 0 \/ x == 1
  end.

Definition in_bounds (b : option (Q * Q)) (x : Q) : Prop :=
  match b with
  | None => True
  | Some (lo, hi) => lo <= x /\ x <= hi
  end.

Definition var_ok (rho : assignment) (d : VarData) : Prop :=
  in_domain (vd_domain d) (rho (vd_var d)) /\
  in_bounds (vd_bounds d) (rho (vd_var d)).

Definition all_vars (b : Block) : list VarData :=
  m_Buy b ++ m_Use b ++ m_Stock b ++ m_Produce b ++
  match m_IsUsed b with Some c => c | None => [] end.

Definition constraints_of {I} (f : family I) : list constraint := map snd f.

Definition logical_constraints (l : Logical) : list constraint :=
  constraints_of (LinkVars l) ++ constraints_of (MinThreshold l) ++
  constraints_of (MaxIngredients l) ++
  constraints_of (LogicVeg1 l) ++ constraints_of (LogicVeg2 l).

(** The constraints of Part 1, present in both modes. *)
Definition continuous_constraints (m : Model) : list constraint :=
  constraints_of (Balance m) ++ constraints_of (FinalStock m) ++
  constraints_of (VegCapacity m) ++ constraints_of (NonVegCapacity m) ++
  constraints_of (ProductionDef m) ++
  constraints_of (HardnessMin m) ++ constraints_of (HardnessMax m).

Definition all_constraints (m : Model) : list constraint :=
  continuous_constraints m ++
  match logical m with Some l => logical_constraints l | None => [] end.

Definition feasible (m : Model) (rho : assignment) : Prop :=
  Forall (var_ok rho) (all_vars (decls m)) /\
  Forall (sat rho) (all_constraints m).

Definition objective_value (m : Model) (rho : assignment) : Q :=
  eval rho (fst (Objective m)).

(** [rho] attains the optimum of a maximisation model. *)
Definition optimal (m : Model) (rho : assignment) : Prop :=
  feasible m rho /\
  forall rho', feasible m rho' -> objective_value m rho' <= objective_value m rho.

(** Executable counterparts, for checking a concrete assignment. *)
Definition satb (rho : assignment) (c : constraint) : bool :=
  match op c with
  | Eq => Qeq_bool (eval rho (lhs c)) (eval rho (rhs c))
  | Le => Qle_bool (eval rho (lhs c)) (eval rho (rhs c))
  | Ge => Qle_bool (eval rho (rhs c)) (eval rho (lhs c))
  end.

Definition var_okb (rho : assignment) (d : VarData) : bool :=
  match vd_domain d with
  | NonNegativeReals => Qle_bool 0 (rho (vd_var d))
  | Binary => Qeq_bool (rho (vd_var d)) 0 || Qeq_bool (rho (vd_var d)) 1
  end &&
  match vd_bounds d with
  | None => true
  | Some (lo, hi) => Qle_bool lo (rho (vd_var d)) && Qle_bool (rho (vd_var d)) hi
  end.

Definition feasibleb (m : Model) (rho : assignment) : bool :=
  forallb (var_okb rho) (all_vars (decls m)) &&
  forallb (satb rho) (all_constraints m).

(** Finite sums of rationals, for stating what an expression denotes. *)
Definition Qsum {A} (f : A -> Q) (l : list A) : Q :=
  fold_right (fun x acc => f x + acc) 0 l.

(** ** Concrete plans on the reference scenario *)

(** Buy and use nothing; every stock stays at its initial level. *)
Definition plan_idle : assignment :=
  fun v => match v with Stock _ _ => 500 | _ => 0 end.

(** Each month, buy and refine 100 tons of OIL3 (hardness 5). *)
Definition plan_oil3 : assignment :=
  fun v =>
    match v with
    | Stock _ _ => 500
    | Buy o _ | Use o _ => if String.eqb o "OIL3" then 100 else 0
    | Produce _ => 100
    | IsUsed o _ => if String.eqb o "OIL3" then 1 else 0
    end.

(** The hardness coefficient of oil [o], as [oils.loc[o, 'hardness']]
    yields it ([0] where the lookup fails). *)
Definition hardness_of (oils : oils_df) (o : string) : Q :=
  match oils_loc_hardness oils o with
  | inr h => h
  | inl _ => 0
  end.

(** ** Auxiliary data for the statements *)

(** The dictionary keys that [build] reads, by mode. *)
Definition required_keys (use_integer_logic : bool) : list string :=
  [ "storage_capacity_per_oil"; "initial_stock"; "target_final_stock";
    "max_veg_refine_per_month"; "max_nonveg_refine_per_month";
    "min_hardness"; "max_hardness";
    "product_sales_price"; "storage_cost_per_ton" ] ++
  (if use_integer_logic
   then [ "min_usage_if_used"; "max_ingredients_per_month" ]
   else []).


(** The months follow one another: every label but the first has its
    predecessor in the index. *)
Definition consecutive_months (index : list Z) : Prop :=
  forall t, In t index -> hd_error index = Some t \/ In (t - 1)%Z index.

(** The Logical Implication family as the specification words it: one
    constraint [IsUsed[dependent, t] <= IsUsed[prerequisite, t]] per
    period and per configured pair. *)
Definition spec_logical_implication (pairs : list (string * string))
    (T : list Z) : list constraint :=
  flat_map (fun t =>
    map (fun dp => {| lhs := V (IsUsed (fst dp) t); op := Le;
                      rhs := V (IsUsed (snd dp) t) |}) pairs) T.

(** The pairs that the rules [logic_veg1_rule] and [logic_veg2_rule]
    spell out. *)
Definition builtin_pairs : list (string * string) :=
  [ ("VEG1", "OIL3"); ("VEG2", "OIL3") ].

(** A two-oil, two-month scenario with one oil per category and none of
    the oils named in Part 2. *)
Definition two_oils : oils_df :=
  [ {| id := "SUN";  type := "Veg";    hardness := 6 |};
    {| id := "LARD"; type := "NonVeg"; hardness := 4 |} ].

Definition two_months : prices_df :=
  frame_of_columns [1; 2]%Z
    [ ("SUN", [110; 120]); ("LARD", [100; 90]) ].

(** The reference catalog without its vegetable oils. *)
Definition nonveg_oils : oils_df :=
  [ {| id := "OIL1"; type := "NonVeg"; hardness := 2 |};
    {| id := "OIL2"; type := "NonVeg"; hardness := 42 # 10 |};
    {| id := "OIL3"; type := "NonVeg"; hardness := 5 |} ].

(** An empty catalog and an empty price table. *)
Definition no_oils : oils_df := [].
Definition no_months : prices_df := frame_of_columns [] [].

(** A stand-in for the external solver: it reports [tt] and loads the
    given plan into the variables. *)
Definition solver_stub (plan : assignment)
    : option Model -> M (unit * (var -> option Q)) :=
  fun _ => ret (tt, fun v => Some (plan v)).

(** The row that the extraction loop appends for [(o, t)] when the
    variables hold the values of [rho]. *)
Definition row_of (rho : assignment) (t : Z) (o : string) : result_row :=
  {| Month := t; Oil := o;
     row_Buy := rho (Buy o t); row_Use := rho (Use o t);
     row_Stock := rho (Stock o t) |}.

(** ** Further notions used in the statements *)

(** The reference parameters with the non-vegetable refining cap raised
    from 250 to 300 tons. *)
Definition parameters_nonveg_300 : gmap string Q :=
  <["max_nonveg_refine_per_month" := 300]> get_parameters.

(** Each month, buy and refine 300 tons of OIL3 (hardness 5), with the
    indicator of OIL3 set. *)
Definition plan_oil3_300 : assignment :=
  fun v =>
    match v with
    | Stock _ _ => 500
    | Buy o _ | Use o _ => if String.eqb o "OIL3" then 300 else 0
    | Produce _ => 300
    | IsUsed o _ => if String.eqb o "OIL3" then 1 else 0
    end.

(** The plan that buys and refines nothing and holds every stock at [s]. *)
Definition idle_plan (s : Q) : assignment :=
  fun v => match v with Stock _ _ => s | _ => 0 end.

(** [n] consecutive months starting at [t1], in ascending order (the shape
    of the index that [load_market_prices] sets). *)
Definition months (t1 : Z) (n : nat) : list Z :=
  map (fun i => (t1 + Z.of_nat i)%Z) (seq 0 n).

(** The variables an expression mentions. *)
Fixpoint expr_vars (e : expr) : list var :=
  match e with
  | Num _ => []
  | V v => [v]
  | Add a b | Sub a b | Mul a b => expr_vars a ++ expr_vars b
  end.

Definition constraint_vars (c : constraint) : list var :=
  expr_vars (lhs c) ++ expr_vars (rhs c).

(** The variables a block declares. *)
Definition declared_vars (b : Block) : list var := map vd_var (all_vars b).

(** Each month, buy and refine 20 tons of VEG1 and 80 tons of OIL3
    (blend hardness 5.76). *)
Definition plan_veg1_oil3 : assignment :=
  fun v =>
    match v with
    | Stock _ _ => 500
    | Buy o _ | Use o _ =>
        if String.eqb o "VEG1" then 20
        else if String.eqb o "OIL3" then 80 else 0
    | Produce _ => 100
    | IsUsed o _ =>
        if String.eqb o "VEG1" then 1
        else if String.eqb o "OIL3" then 1 else 0
    end.

(** * Properties *)

(** ** The error monad *)

Lemma bind_inr {A B} (c : M A) (k : A -> M B) (b : B) :
  bind c k = inr b -> exists a, c = inr a /\ k a = inr b.
Proof.
  destruct c as [e | a]; simpl; intros H; [discriminate | eauto].
Qed.

(** Split a successful chain of binds into its successful steps. *)
Ltac inv_bind H :=
  repeat match type of H with
         | bind ?c ?k = inr ?b =>
             let a := fresh "a" in
             let Ha := fresh "Hstep" in
             apply bind_inr in H; destruct H as (a & Ha & H)
         | ret ?a = inr ?b => injection H as H
         | inr ?a = inr ?b => injection H as H
         end.

Lemma mapM_inr_Forall2 {A B} (f : A -> M B) (l : list A) (r : list B) :
  mapM f l = inr r -> Forall2 (fun x y => f x = inr y) l r.
Proof.
  revert r. induction l as [| x l IH]; simpl; intros r H.
  - injection H as <-. constructor.
  - inv_bind H. subst r. constructor; auto.
Qed.

Lemma mapM_inr_map {A B} (f : A -> M B) (g : A -> B) (l : list A) (r : list B) :
  mapM f l = inr r ->
  (forall x y, In x l -> f x = inr y -> y = g x) ->
  r = map g l.
Proof.
  intros H Hg. apply mapM_inr_Forall2 in H.
  induction H as [| x y l r Hxy _ IH]; simpl; [reflexivity |].
  f_equal.
  - apply Hg; [left; reflexivity | exact Hxy].
  - apply IH. intros x' y' Hin. apply Hg. right. exact Hin.
Qed.

Lemma mapM_inr_In {A B} (f : A -> M B) (l : list A) (r : list B) (x : A) :
  mapM f l = inr r -> In x l -> exists y, f x = inr y /\ In y r.
Proof.
  intros H. apply mapM_inr_Forall2 in H.
  induction H as [| x' y' l r Hxy _ IH]; simpl; intros Hin; [contradiction |].
  destruct Hin as [-> | Hin].
  - exists y'. auto.
  - destruct (IH Hin) as (y & Hy & Hyr). exists y. auto.
Qed.

Lemma mapM_total {A B} (f : A -> M B) (l : list A) :
  (forall x, In x l -> exists y, f x = inr y) ->
  exists r, mapM f l = inr r.
Proof.
  induction l as [| x l IH]; simpl; intros H.
  - eexists. reflexivity.
  - destruct (H x) as (y & Hy); [left; reflexivity |].
    destruct IH as (r & Hr); [intros x' Hx'; apply H; right; exact Hx' |].
    exists (y :: r). rewrite Hy. simpl. rewrite Hr. reflexivity.
Qed.

(** ** Python arithmetic and comparisons *)

Lemma py_cmp_RCon (r : rel) (a b : expr) (c : constraint) :
  py_cmp r a b = RCon c -> c = {| lhs := a; op := r; rhs := b |}.
Proof.
  unfold py_cmp. destruct a, b; intros H; try discriminate; congruence.
Qed.

Lemma eval_py_add rho a b : eval rho (py_add a b) = eval rho a + eval rho b.
Proof. destruct a, b; reflexivity. Qed.

Lemma eval_py_sub rho a b : eval rho (py_sub a b) = eval rho a - eval rho b.
Proof. destruct a, b; reflexivity. Qed.

Lemma eval_py_mul rho a b : eval rho (py_mul a b) = eval rho a * eval rho b.
Proof. destruct a, b; reflexivity. Qed.

Lemma eval_fold_py_add rho (l : list expr) (a : expr) :
  eval rho (fold_left py_add l a) == eval rho a + Qsum (eval rho) l.
Proof.
  revert a. induction l as [| x l IH]; simpl; intros a.
  - ring.
  - rewrite IH, eval_py_add. ring.
Qed.

Lemma eval_py_sum rho (l : list expr) :
  eval rho (py_sum l) == Qsum (eval rho) l.
Proof. unfold py_sum. rewrite eval_fold_py_add. simpl. ring. Qed.


Lemma Qsum_nonneg {A} (f : A -> Q) (l : list A) :
  (forall x, In x l -> 0 <= f x) -> 0 <= Qsum f l.
Proof.
  induction l as [| x l IH]; simpl; intros H; [lra |].
  assert (0 <= f x) by (apply H; left; reflexivity).
  assert (0 <= Qsum f l) by (apply IH; intros y Hy; apply H; right; exact Hy).
  lra.
Qed.


(** ** Ordered sets and indexed variables *)

Section OrderedSetFacts.
Context {A : Type} (eqb : A -> A -> bool).
Hypothesis eqb_spec : forall x y, eqb x y = true <-> x = y.

Lemma existsb_eqb_In (x : A) (l : list A) :
  existsb (eqb x) l = true <-> In x l.
Proof.
  rewrite existsb_exists. split.
  - intros (y & Hy & Hxy). apply eqb_spec in Hxy. now subst.
  - intros H. exists x. split; [exact H | now apply eqb_spec].
Qed.

Lemma set_add_all_In (seen l : list A) (x : A) :
  In x (set_add_all eqb seen l) <-> In x l /\ ~ In x seen.
Proof.
  revert seen. induction l as [| y l IH]; simpl; intros seen.
  - tauto.
  - destruct (existsb (eqb y) seen) eqn:E.
    + apply existsb_eqb_In in E. rewrite IH.
      split; [tauto |]. intros [[-> | H] Hn]; tauto.
    + assert (~ In y seen) as Hy.
      { intros H. apply existsb_eqb_In in H. congruence. }
      simpl. rewrite IH. simpl. split.
      * intros [-> | [H Hn]]; tauto.
      * intros [[-> | H] Hn]; [tauto |].
        destruct (eqb y x) eqn:Eyx.
        -- apply eqb_spec in Eyx. tauto.
        -- right. split; [exact H |]. intros [-> | H']; [| tauto].
           assert (eqb x x = true) by now apply eqb_spec. congruence.
Qed.

Lemma set_add_all_NoDup (seen l : list A) : List.NoDup (set_add_all eqb seen l).
Proof.
  revert seen. induction l as [| y l IH]; simpl; intros seen.
  - constructor.
  - destruct (existsb (eqb y) seen); [apply IH |].
    constructor; [| apply IH].
    rewrite set_add_all_In. simpl. tauto.
Qed.

Lemma Set_init_In (l : list A) (x : A) : In x (Set_init eqb l) <-> In x l.
Proof. unfold Set_init. rewrite set_add_all_In. simpl. tauto. Qed.

Lemma Set_init_NoDup (l : list A) : List.NoDup (Set_init eqb l).
Proof. apply set_add_all_NoDup. Qed.

Lemma Set_init_nil (l : list A) : Set_init eqb l = [] -> l = [].
Proof.
  intros H. destruct l as [| x l]; [reflexivity |].
  assert (In x (Set_init eqb (x :: l))) as Hin
    by (apply Set_init_In; left; reflexivity).
  rewrite H in Hin. contradiction.
Qed.
End OrderedSetFacts.

Lemma str_eqb_spec (x y : string) : String.eqb x y = true <-> x = y.
Proof. apply String.eqb_eq. Qed.

Lemma z_eqb_spec (x y : Z) : Z.eqb x y = true <-> x = y.
Proof. apply Z.eqb_eq. Qed.

Lemma var_eqb_spec (v w : var) : var_eqb v w = true <-> v = w.
Proof.
  destruct v, w; simpl; try (split; intros; discriminate);
    rewrite ?andb_true_iff, ?String.eqb_eq, ?Z.eqb_eq;
    split; intros H; try (destruct H; subst; reflexivity);
    injection H; auto.
Qed.

Lemma in_cross (O : list string) (T : list Z) (o : string) (t : Z) :
  In (o, t) (cross O T) <-> In o O /\ In t T.
Proof.
  unfold cross. rewrite in_flat_map. split.
  - intros (o' & Ho & H). apply in_map_iff in H as (t' & Ht & Hin).
    injection Ht as <- <-. auto.
  - intros (Ho & Ht). exists o. split; [exact Ho |].
    apply in_map_iff. eauto.
Qed.

Lemma getitem_inr (component : Var) (v : var) (e : expr) :
  getitem component v = inr e ->
  e = V v /\ exists d, In d component /\ vd_var d = v.
Proof.
  unfold getitem.
  destruct (existsb _ component) eqn:E; [| discriminate].
  intros H. injection H as <-. split; [reflexivity |].
  apply existsb_exists in E as (d & Hd & Hv).
  apply var_eqb_spec in Hv. eauto.
Qed.

Lemma getitem_In (component : Var) (d : VarData) :
  In d component -> getitem component (vd_var d) = inr (V (vd_var d)).
Proof.
  intros H. unfold getitem.
  replace (existsb _ component) with true; [reflexivity |].
  symmetry. apply existsb_exists. exists d. split; [exact H |].
  now apply var_eqb_spec.
Qed.

Section Var2Facts.
Variable ctor : string -> Z -> var.
Hypothesis ctor_inj :
  forall o t o' t', ctor o t = ctor o' t' -> o = o' /\ t = t'.

Lemma Var2_In O T d b (x : VarData) :
  In x (Var2 ctor O T d b) <->
  exists o t, In o O /\ In t T /\
    x = {| vd_var := ctor o t; vd_domain := d; vd_bounds := b |}.
Proof.
  unfold Var2. rewrite in_map_iff. split.
  - intros ([o t] & <- & Hin). apply in_cross in Hin as [Ho Ht].
    exists o, t. simpl. auto.
  - intros (o & t & Ho & Ht & ->). exists (o, t). split; [reflexivity |].
    now apply in_cross.
Qed.

Lemma getitem_Var2 O T d b o t :
  In o O -> In t T ->
  getitem (Var2 ctor O T d b) (ctor o t) = inr (V (ctor o t)).
Proof.
  intros Ho Ht.
  apply (getitem_In _ {| vd_var := ctor o t; vd_domain := d; vd_bounds := b |}).
  apply Var2_In. eauto 6.
Qed.

Lemma getitem_Var2_inv O T d b o t e :
  getitem (Var2 ctor O T d b) (ctor o t) = inr e -> In o O /\ In t T.
Proof.
  intros H. apply getitem_inr in H as (_ & x & Hx & Hv).
  apply Var2_In in Hx as (o' & t' & Ho & Ht & ->). simpl in Hv.
  apply ctor_inj in Hv as (-> & ->). auto.
Qed.
End Var2Facts.

Lemma Buy_inj o t o' t' : Buy o t = Buy o' t' -> o = o' /\ t = t'.
Proof. intros H. injection H. auto. Qed.
Lemma Use_inj o t o' t' : Use o t = Use o' t' -> o = o' /\ t = t'.
Proof. intros H. injection H. auto. Qed.
Lemma Stock_inj o t o' t' : Stock o t = Stock o' t' -> o = o' /\ t = t'.
Proof. intros H. injection H. auto. Qed.
Lemma IsUsed_inj o t o' t' : IsUsed o t = IsUsed o' t' -> o = o' /\ t = t'.
Proof. intros H. injection H. auto. Qed.

Lemma Var1_In (ctor : Z -> var) T d b (x : VarData) :
  In x (Var1 ctor T d b) <->
  exists t, In t T /\ x = {| vd_var := ctor t; vd_domain := d; vd_bounds := b |}.
Proof.
  unfold Var1. rewrite in_map_iff. split.
  - intros (t & <- & Hin). eauto.
  - intros (t & Ht & ->). eauto.
Qed.

Lemma getitem_Produce T d b t :
  In t T -> getitem (Var1 Produce T d b) (Produce t) = inr (V (Produce t)).
Proof.
  intros Ht.
  apply (getitem_In _ {| vd_var := Produce t; vd_domain := d; vd_bounds := b |}).
  apply Var1_In. eauto.
Qed.

(** ** [pyo.Constraint] *)

Lemma Constraint_inr_map {I} name (index : list I) rule (g : I -> constraint)
    (fam : family I) :
  Constraint name index rule = inr fam ->
  (forall i r, In i index -> rule i = inr r -> r = RCon (g i)) ->
  fam = map (fun i => (i, g i)) index.
Proof.
  intros H Hg. unfold Constraint in H.
  apply (mapM_inr_map _ (fun i => (i, g i))) in H; [exact H |].
  intros i y Hin Hy. inv_bind Hy.
  rewrite (Hg i a Hin Hstep) in Hy. injection Hy as <-. reflexivity.
Qed.

Lemma Constraint_inr_rule {I} name (index : list I) rule (fam : family I) (i : I) :
  Constraint name index rule = inr fam -> In i index ->
  exists c, rule i = inr (RCon c) /\ In (i, c) fam.
Proof.
  intros H Hin. unfold Constraint in H.
  destruct (mapM_inr_In _ _ _ i H Hin) as ([i' c] & Hy & Hfam).
  inv_bind Hy. destruct a as [b | c']; [discriminate |].
  injection Hy as <- <-. eauto.
Qed.

Lemma Constraint_total {I} name (index : list I) rule :
  (forall i, In i index -> exists c, rule i = inr (RCon c)) ->
  exists fam, Constraint name index rule = inr fam.
Proof.
  intros H. unfold Constraint. apply mapM_total.
  intros i Hin. destruct (H i Hin) as (c & ->). simpl. eauto.
Qed.

(** ** What a successful [build] has computed *)

Lemma getparam_inr params k q : getparam params k = inr q <-> params !! k = Some q.
Proof.
  unfold getparam. destruct (params !! k); split; intros H;
    try discriminate; injection H as ->; reflexivity.
Qed.

Section BuildFacts.
Variable oils : oils_df.
Variable prices : prices_df.
Variable params : gmap string Q.

Local Abbreviation O_ := (Set_init String.eqb (oils_index oils)).
Local Abbreviation T_ := (Set_init Z.eqb (p_index prices)).

Lemma declare_inr flag b :
  declare oils prices params flag = inr b ->
  exists cap,
    params !! "storage_capacity_per_oil" = Some cap /\
    b = {| m_T := T_; m_O := O_;
           m_Buy := Var2 Buy O_ T_ NonNegativeReals None;
           m_Use := Var2 Use O_ T_ NonNegativeReals None;
           m_Stock := Var2 Stock O_ T_ NonNegativeReals (Some (0, cap));
           m_Produce := Var1 Produce T_ NonNegativeReals None;
           m_IsUsed := if flag then Some (Var2 IsUsed O_ T_ Binary None)
                       else None |}.
Proof.
  unfold declare. intros H. inv_bind H.
  apply getparam_inr in Hstep. eauto.
Qed.

Lemma build_inv flag m :
  build oils prices params flag = inr m ->
  let b := decls m in
  declare oils prices params flag = inr b /\
  Constraint "Balance" (cross (m_O b) (m_T b))
    (fun ot => balance_rule params b (fst ot) (snd ot)) = inr (Balance m) /\
  Constraint "FinalStock" (m_O b) (final_stock_rule params b)
    = inr (FinalStock m) /\
  Constraint "VegCapacity" (m_T b)
    (fun t => limit <- getparam params "max_veg_refine_per_month" ;;
              capacity_rule oils b t "Veg" limit) = inr (VegCapacity m) /\
  Constraint "NonVegCapacity" (m_T b)
    (fun t => limit <- getparam params "max_nonveg_refine_per_month" ;;
              capacity_rule oils b t "NonVeg" limit) = inr (NonVegCapacity m) /\
  Constraint "ProductionDef" (m_T b) (production_def b)
    = inr (ProductionDef m) /\
  Constraint "HardnessMin" (m_T b) (hardness_min_rule oils params b)
    = inr (HardnessMin m) /\
  Constraint "HardnessMax" (m_T b) (hardness_max_rule oils params b)
    = inr (HardnessMax m) /\
  (if flag
   then exists l, build_logical params b = inr l /\ logical m = Some l
   else logical m = None) /\
  objective_rule prices params b = inr (fst (Objective m)) /\
  snd (Objective m) = maximize.
Proof.
  unfold build. intros H. inv_bind H. subst m. simpl.
  repeat (split; [assumption |]).
  split; [| split; [assumption | reflexivity]].
  destruct flag.
  - inv_bind Hstep7. subst. eauto.
  - injection Hstep7 as <-. reflexivity.
Qed.

(** The sets of a built model are the de-duplicated indices of the two
    frames. *)
Lemma build_sets flag m :
  build oils prices params flag = inr m ->
  m_T (decls m) = T_ /\ m_O (decls m) = O_.
Proof.
  intros H. apply build_inv in H as (Hd & _).
  apply declare_inr in Hd as (cap & _ & ->). auto.
Qed.

Lemma feasible_sat m rho c :
  feasible m rho -> In c (all_constraints m) -> sat rho c.
Proof.
  intros [_ H] Hin. rewrite List.Forall_forall in H. auto.
Qed.

Lemma feasible_var m rho d :
  feasible m rho -> In d (all_vars (decls m)) -> var_ok rho d.
Proof.
  intros [H _] Hin. rewrite List.Forall_forall in H. auto.
Qed.

Lemma in_constraints_of {I} (fam : family I) i c :
  In (i, c) fam -> In c (constraints_of fam).
Proof.
  intros H. unfold constraints_of. apply in_map_iff. exists (i, c). auto.
Qed.

(** Membership in Part 1, family by family. *)
Lemma in_continuous m c :
  In c (constraints_of (Balance m)) \/
  In c (constraints_of (FinalStock m)) \/
  In c (constraints_of (VegCapacity m)) \/
  In c (constraints_of (NonVegCapacity m)) \/
  In c (constraints_of (ProductionDef m)) \/
  In c (constraints_of (HardnessMin m)) \/
  In c (constraints_of (HardnessMax m)) ->
  In c (all_constraints m).
Proof.
  unfold all_constraints, continuous_constraints.
  rewrite !in_app_iff. tauto.
Qed.

(** Membership in Part 2. *)
Lemma in_logical m l c :
  logical m = Some l ->
  In c (constraints_of (LinkVars l)) \/
  In c (constraints_of (MinThreshold l)) \/
  In c (constraints_of (MaxIngredients l)) \/
  In c (constraints_of (LogicVeg1 l)) \/
  In c (constraints_of (LogicVeg2 l)) ->
  In c (all_constraints m).
Proof.
  intros Hl. unfold all_constraints, logical_constraints. rewrite Hl.
  rewrite !in_app_iff. tauto.
Qed.

(** Every [Use], [Buy], [Stock] and [Produce] variable of a built model
    is non-negative under a feasible assignment. *)
Lemma feasible_nonneg flag m rho o t :
  build oils prices params flag = inr m -> feasible m rho ->
  In o (m_O (decls m)) -> In t (m_T (decls m)) ->
  0 <= rho (Buy o t) /\ 0 <= rho (Use o t) /\
  0 <= rho (Stock o t) /\ 0 <= rho (Produce t).
Proof.
  intros Hb Hf Ho Ht.
  apply build_inv in Hb as (Hd & _).
  apply declare_inr in Hd as (cap & _ & Hdecl).
  rewrite Hdecl in Ho, Ht. simpl in Ho, Ht.
  assert (forall d, In d (all_vars (decls m)) ->
                    vd_domain d = NonNegativeReals -> 0 <= rho (vd_var d)) as Hv.
  { intros d Hin Hdom. destruct (feasible_var _ _ _ Hf Hin) as [H _].
    rewrite Hdom in H. exact H. }
  rewrite Hdecl in Hv. unfold all_vars in Hv. simpl in Hv.
  repeat split.
  - apply (Hv {| vd_var := Buy o t; vd_domain := NonNegativeReals;
                 vd_bounds := None |}); [| reflexivity].
    apply in_or_app. left. apply (Var2_In Buy). eauto 6.
  - apply (Hv {| vd_var := Use o t; vd_domain := NonNegativeReals;
                 vd_bounds := None |}); [| reflexivity].
    apply in_or_app. right. apply in_or_app. left.
    apply (Var2_In Use). eauto 6.
  - apply (Hv {| vd_var := Stock o t; vd_domain := NonNegativeReals;
                 vd_bounds := Some (0, cap) |}); [| reflexivity].
    apply in_or_app. right. apply in_or_app. right. apply in_or_app. left.
    apply (Var2_In Stock). eauto 6.
  - apply (Hv {| vd_var := Produce t; vd_domain := NonNegativeReals;
                 vd_bounds := None |}); [| reflexivity].
    apply in_or_app. right. apply in_or_app. right. apply in_or_app. right.
    apply in_or_app. left. apply Var1_In. eauto.
Qed.
End BuildFacts.

(** ** Inventory balance and the final stock target *)

Lemma first_In T t1 : first T = inr t1 -> In t1 T.
Proof. destruct T; simpl; intros H; [discriminate |]. injection H as ->. now left. Qed.

Lemma last_In T tn : last T = inr tn -> In tn T.
Proof.
  induction T as [| t T IH]; simpl; intros H; [discriminate |].
  destruct T as [| t' T']; [injection H as ->; now left |].
  right. apply IH. exact H.
Qed.

Lemma first_total T t : In t T -> exists t1, first T = inr t1.
Proof. destruct T; simpl; intros H; [contradiction | eauto]. Qed.

Lemma last_total T t : In t T -> exists tn, last T = inr tn.
Proof.
  revert t. induction T as [| t' T IH]; intros t H; [contradiction |].
  destruct T as [| t'' T']; [simpl; eauto |].
  destruct (IH t'') as (tn & Htn); [now left |]. exists tn. exact Htn.
Qed.

Lemma balance_rule_inr params b o t r :
  balance_rule params b o t = inr r ->
  exists t1 prev,
    first (m_T b) = inr t1 /\
    (if Z.eqb t t1
     then exists q, params !! "initial_stock" = Some q /\ prev = Num q
     else prev = V (Stock o (t - 1))) /\
    r = RCon {| lhs := V (Stock o t); op := Eq;
                rhs := Sub (Add prev (V (Buy o t))) (V (Use o t)) |}.
Proof.
  unfold balance_rule. intros H.
  apply bind_inr in H as (t1 & Ht1 & H).
  apply bind_inr in H as (prev & Hprev & H).
  apply bind_inr in H as (s & Hs & H).
  apply bind_inr in H as (bu & Hbu & H).
  apply bind_inr in H as (u & Hu & H).
  apply getitem_inr in Hs as (-> & _).
  apply getitem_inr in Hbu as (-> & _).
  apply getitem_inr in Hu as (-> & _).
  injection H as <-.
  exists t1, prev. split; [exact Ht1 |]. split.
  - destruct (Z.eqb t t1).
    + apply bind_inr in Hprev as (q & Hq & Hprev).
      injection Hprev as <-. apply getparam_inr in Hq. eauto.
    + apply getitem_inr in Hprev as (-> & _). reflexivity.
  - destruct prev; reflexivity.
Qed.

Lemma final_stock_rule_inr params b o r :
  final_stock_rule params b o = inr r ->
  exists tn q,
    last (m_T b) = inr tn /\ params !! "target_final_stock" = Some q /\
    r = RCon {| lhs := V (Stock o tn); op := Eq; rhs := Num q |}.
Proof.
  unfold final_stock_rule. intros H.
  apply bind_inr in H as (tn & Htn & H).
  apply bind_inr in H as (s & Hs & H).
  apply bind_inr in H as (q & Hq & H).
  apply getitem_inr in Hs as (-> & _).
  apply getparam_inr in Hq.
  injection H as <-. eauto.
Qed.

(** C1. Whenever [build] returns a model (in either mode), for every oil
    [o] and period [t] of the model: the family [Balance] holds at [(o, t)]
    the equality [Stock[o,t] = prev + Buy[o,t] - Use[o,t]], where [prev] is
    the number [params['initial_stock']] when [t] is the first period and
    the variable [Stock[o,t-1]] otherwise; the family [FinalStock] holds at
    [o] the equality [Stock[o, last] = params['target_final_stock']]; and
    every feasible assignment satisfies the balance at [(o, t)] and both
    boundary conditions exactly. *)
Theorem C1_balance_and_boundary
    oils prices params flag m (rho : assignment) (o : string) (t : Z) :
  build oils prices params flag = inr m ->
  In o (m_O (decls m)) -> In t (m_T (decls m)) ->
  exists t1 tn q0 qn prev,
    first (m_T (decls m)) = inr t1 /\
    last (m_T (decls m)) = inr tn /\
    params !! "initial_stock" = Some q0 /\
    params !! "target_final_stock" = Some qn /\
    prev = (if Z.eqb t t1 then Num q0 else V (Stock o (t - 1))) /\
    In (o, t, {| lhs := V (Stock o t); op := Eq;
                 rhs := Sub (Add prev (V (Buy o t))) (V (Use o t)) |})
       (Balance m) /\
    In (o, {| lhs := V (Stock o tn); op := Eq; rhs := Num qn |})
       (FinalStock m) /\
    (feasible m rho ->
       rho (Stock o t) == eval rho prev + rho (Buy o t) - rho (Use o t) /\
       rho (Stock o t1) == q0 + rho (Buy o t1) - rho (Use o t1) /\
       rho (Stock o tn) == qn).
Proof.
  intros Hb Ho Ht.
  destruct (build_inv _ _ _ _ _ Hb) as (_ & Hbal & Hfin & _).
  simpl in Hbal, Hfin.
  (* the constraint at (o, t) *)
  destruct (Constraint_inr_rule _ _ _ _ (o, t) Hbal) as (c & Hc & Hin);
    [apply in_cross; auto |].
  simpl in Hc. apply balance_rule_inr in Hc as (t1 & prev & Ht1 & Hprev & Hc).
  injection Hc as ->.
  (* the constraint at (o, first) *)
  pose proof (first_In _ _ Ht1) as Ht1in.
  destruct (Constraint_inr_rule _ _ _ _ (o, t1) Hbal) as (c1 & Hc1 & Hin1);
    [apply in_cross; auto |].
  simpl in Hc1. apply balance_rule_inr in Hc1 as (t1' & prev1 & Ht1' & Hprev1 & Hc1).
  rewrite Ht1 in Ht1'. injection Ht1' as <-. rewrite Z.eqb_refl in Hprev1.
  destruct Hprev1 as (q0 & Hq0 & ->). injection Hc1 as ->.
  (* the final stock constraint at o *)
  destruct (Constraint_inr_rule _ _ _ _ o Hfin Ho) as (cn & Hcn & Hinn).
  apply final_stock_rule_inr in Hcn as (tn & qn & Htn & Hqn & Hcn).
  injection Hcn as ->.
  exists t1, tn, q0, qn, prev.
  assert (prev = if Z.eqb t t1 then Num q0 else V (Stock o (t - 1))) as Hp.
  { destruct (Z.eqb t t1); [| exact Hprev].
    destruct Hprev as (q & Hq & ->). congruence. }
  repeat (split; [assumption |]).
  intros Hf.
  pose proof (feasible_sat m rho _ Hf (in_continuous _ _ (or_introl (in_constraints_of _ _ _ Hin)))) as S1.
  pose proof (feasible_sat m rho _ Hf (in_continuous _ _ (or_introl (in_constraints_of _ _ _ Hin1)))) as S2.
  pose proof (feasible_sat m rho _ Hf (in_continuous _ _ (or_intror (or_introl (in_constraints_of _ _ _ Hinn))))) as S3.
  unfold sat in S1, S2, S3. simpl in S1, S2, S3. auto.
Qed.

(** ** Checking a concrete assignment *)

Lemma satb_sound rho c : satb rho c = true -> sat rho c.
Proof.
  unfold satb, sat. destruct (op c); intros H.
  - now apply Qeq_bool_iff.
  - now apply Qle_bool_iff.
  - now apply Qle_bool_iff.
Qed.

Lemma var_okb_sound rho d : var_okb rho d = true -> var_ok rho d.
Proof.
  unfold var_okb, var_ok, in_domain, in_bounds.
  rewrite andb_true_iff. intros [Hd Hb]. split.
  - destruct (vd_domain d).
    + now apply Qle_bool_iff.
    + apply orb_true_iff in Hd as [H | H]; apply Qeq_bool_iff in H; auto.
  - destruct (vd_bounds d) as [[lo hi] |]; [| exact Logic.I].
    apply andb_true_iff in Hb as [H1 H2].
    split; now apply Qle_bool_iff.
Qed.

Lemma feasibleb_sound m rho : feasibleb m rho = true -> feasible m rho.
Proof.
  unfold feasibleb, feasible. rewrite andb_true_iff.
  intros [Hv Hc]. rewrite forallb_forall in Hv, Hc.
  split; apply List.Forall_forall; intros x Hx.
  - apply var_okb_sound. auto.
  - apply satb_sound. auto.
Qed.

(** Run [build] on closed data inside a goal [exists m, build .. = inr m /\ _]. *)
Ltac run_build m Hb :=
  match goal with
  | |- exists m', ?c = inr m' /\ _ =>
      let e := fresh "e" in
      destruct c as [e | m] eqn:Hb;
      [vm_compute in Hb; discriminate | exists m; split; [reflexivity |]]
  end.

(** Decide [feasible m rho] for the model that [Hb] says was built. *)
Ltac check_feasible Hb :=
  match type of Hb with
  | ?c = inr ?m =>
      match goal with
      | |- feasible m ?rho =>
          let X := fresh "X" in
          assert (X : match c with
                      | inr m' => feasibleb m' rho
                      | inl _ => false
                      end = true) by (vm_compute; reflexivity);
          rewrite Hb in X; apply feasibleb_sound; exact X
      end
  end.

(** Membership of a literal in the sets of a built model. *)
Ltac in_sets Hb :=
  first [ rewrite (proj1 (build_sets _ _ _ _ _ Hb))
        | rewrite (proj2 (build_sets _ _ _ _ _ Hb)) ];
  vm_compute; tauto.

Lemma C1_witness :
  exists m,
    build load_oils_data load_market_prices get_parameters false = inr m /\
    feasible m plan_oil3 /\
    plan_oil3 (Stock "OIL3" 2) ==
      plan_oil3 (Stock "OIL3" 1) + plan_oil3 (Buy "OIL3" 2)
      - plan_oil3 (Use "OIL3" 2).
Proof.
  run_build m Hb.
  assert (feasible m plan_oil3) as Hf by check_feasible Hb.
  split; [exact Hf |].
  destruct (C1_balance_and_boundary _ _ _ _ m plan_oil3 "OIL3" 2%Z Hb)
    as (t1 & tn & q0 & qn & prev & H1 & _ & _ & _ & Hprev & _ & _ & H);
    [in_sets Hb | in_sets Hb |].
  rewrite (proj1 (build_sets _ _ _ _ _ Hb)) in H1.
  vm_compute in H1. injection H1 as <-.
  simpl in Hprev. subst prev.
  destruct (H Hf) as (Hbal & _). exact Hbal.
Defined.

(** ** Production definition and the linearised hardness bounds *)

Lemma Qsum_Forall2 {A B} (R : A -> B -> Prop) (f : A -> Q) (g : B -> Q) l r :
  Forall2 R l r -> (forall x y, R x y -> g y == f x) -> Qsum g r == Qsum f l.
Proof.
  intros H Hfg. induction H as [| x y l r Hxy _ IH]; simpl; [reflexivity |].
  rewrite IH, (Hfg x y Hxy). reflexivity.
Qed.

Lemma eval_sum_mapM {A} rho (f : A -> M expr) (g : A -> Q) l es :
  mapM f l = inr es ->
  (forall x e, f x = inr e -> eval rho e == g x) ->
  eval rho (py_sum es) == Qsum g l.
Proof.
  intros H Hg. rewrite eval_py_sum.
  apply (Qsum_Forall2 (fun x y => f x = inr y)).
  - now apply mapM_inr_Forall2.
  - exact Hg.
Qed.

Lemma total_hardness_eval oils b t total rho :
  total_hardness oils b t = inr total ->
  eval rho total == Qsum (fun o => hardness_of oils o * rho (Use o t)) (m_O b).
Proof.
  unfold total_hardness. intros H.
  apply bind_inr in H as (hs & Hhs & H). injection H as <-.
  apply (eval_sum_mapM rho _ _ _ _ Hhs).
  intros o e He.
  apply bind_inr in He as (h & Hh & He).
  apply bind_inr in He as (u & Hu & He).
  apply getitem_inr in Hu as (-> & _). injection He as <-.
  unfold hardness_of. rewrite Hh. simpl. reflexivity.
Qed.

Lemma production_def_inr b t r :
  production_def b t = inr r ->
  exists us,
    r = RCon {| lhs := V (Produce t); op := Eq; rhs := us |} /\
    forall rho, eval rho us == Qsum (fun o => rho (Use o t)) (m_O b).
Proof.
  unfold production_def. intros H.
  apply bind_inr in H as (p & Hp & H).
  apply bind_inr in H as (us & Hus & H).
  apply getitem_inr in Hp as (-> & _). injection H as <-.
  exists (py_sum us). split; [reflexivity |].
  intros rho. apply (eval_sum_mapM rho _ _ _ _ Hus).
  intros o e He. apply getitem_inr in He as (-> & _). reflexivity.
Qed.

Lemma hardness_min_rule_inr oils params b t r :
  hardness_min_rule oils params b t = inr r ->
  exists total q,
    total_hardness oils b t = inr total /\
    params !! "min_hardness" = Some q /\
    r = RCon {| lhs := total; op := Ge; rhs := Mul (Num q) (V (Produce t)) |}.
Proof.
  unfold hardness_min_rule. intros H.
  apply bind_inr in H as (total & Htot & H).
  apply bind_inr in H as (q & Hq & H).
  apply bind_inr in H as (p & Hp & H).
  apply getitem_inr in Hp as (-> & _). apply getparam_inr in Hq.
  injection H as <-. exists total, q.
  repeat split; try assumption. destruct total; reflexivity.
Qed.

Lemma hardness_max_rule_inr oils params b t r :
  hardness_max_rule oils params b t = inr r ->
  exists total q,
    total_hardness oils b t = inr total /\
    params !! "max_hardness" = Some q /\
    r = RCon {| lhs := total; op := Le; rhs := Mul (Num q) (V (Produce t)) |}.
Proof.
  unfold hardness_max_rule. intros H.
  apply bind_inr in H as (total & Htot & H).
  apply bind_inr in H as (q & Hq & H).
  apply bind_inr in H as (p & Hp & H).
  apply getitem_inr in Hp as (-> & _). apply getparam_inr in Hq.
  injection H as <-. exists total, q.
  repeat split; try assumption. destruct total; reflexivity.
Qed.

(** In a feasible assignment, [Produce[t]] is the sum of the [Use[o,t]]. *)
Lemma feasible_production oils prices params flag m rho t :
  build oils prices params flag = inr m -> feasible m rho ->
  In t (m_T (decls m)) ->
  rho (Produce t) == Qsum (fun o => rho (Use o t)) (m_O (decls m)).
Proof.
  intros Hb Hf Ht.
  destruct (build_inv _ _ _ _ _ Hb) as (_ & _ & _ & _ & _ & Hprod & _).
  simpl in Hprod.
  destruct (Constraint_inr_rule _ _ _ _ t Hprod Ht) as (c & Hc & Hin).
  apply production_def_inr in Hc as (us & Hc & Hus). injection Hc as ->.
  pose proof (feasible_sat m rho _ Hf
    (in_continuous _ _ (or_intror (or_intror (or_intror (or_intror
       (or_introl (in_constraints_of _ _ _ Hin)))))))) as S.
  unfold sat in S. simpl in S. rewrite S. apply Hus.
Qed.



(** ** Part 2: linking, minimum usage, and the Big-M constant *)

Lemma build_logical_inv params b l :
  build_logical params b = inr l ->
  Constraint "LinkVars" (cross (m_O b) (m_T b))
    (fun ot => link_rule b (fst ot) (snd ot)) = inr (LinkVars l) /\
  Constraint "MinThreshold" (cross (m_O b) (m_T b))
    (fun ot => min_usage_rule params b (fst ot) (snd ot))
    = inr (MinThreshold l) /\
  Constraint "MaxIngredients" (m_T b) (max_ingredients_rule params b)
    = inr (MaxIngredients l) /\
  Constraint "LogicVeg1" (m_T b) (logic_veg1_rule b) = inr (LogicVeg1 l) /\
  Constraint "LogicVeg2" (m_T b) (logic_veg2_rule b) = inr (LogicVeg2 l).
Proof.
  unfold build_logical. intros H.
  apply bind_inr in H as (link & Hlink & H).
  apply bind_inr in H as (thr & Hthr & H).
  apply bind_inr in H as (ing & Hing & H).
  apply bind_inr in H as (l1 & Hl1 & H).
  apply bind_inr in H as (l2 & Hl2 & H).
  injection H as <-. simpl. auto.
Qed.

Lemma getitem_IsUsed_inr b o t e :
  getitem_IsUsed b o t = inr e -> e = V (IsUsed o t).
Proof.
  unfold getitem_IsUsed. destruct (m_IsUsed b); [| discriminate].
  intros H. now apply getitem_inr in H as (-> & _).
Qed.

Lemma link_rule_inr b o t r :
  link_rule b o t = inr r ->
  r = RCon {| lhs := V (Use o t); op := Le;
              rhs := Mul (Num big_m) (V (IsUsed o t)) |}.
Proof.
  unfold link_rule. intros H.
  apply bind_inr in H as (u & Hu & H).
  apply bind_inr in H as (y & Hy & H).
  apply getitem_inr in Hu as (-> & _).
  apply getitem_IsUsed_inr in Hy as ->.
  injection H as <-. reflexivity.
Qed.

Lemma min_usage_rule_inr params b o t r :
  min_usage_rule params b o t = inr r ->
  exists q,
    params !! "min_usage_if_used" = Some q /\
    r = RCon {| lhs := V (Use o t); op := Ge;
                rhs := Mul (Num q) (V (IsUsed o t)) |}.
Proof.
  unfold min_usage_rule. intros H.
  apply bind_inr in H as (u & Hu & H).
  apply bind_inr in H as (q & Hq & H).
  apply bind_inr in H as (y & Hy & H).
  apply getitem_inr in Hu as (-> & _).
  apply getitem_IsUsed_inr in Hy as ->.
  apply getparam_inr in Hq.
  injection H as <-. eauto.
Qed.

Lemma capacity_rule_inr oils b t oil_type limit c :
  capacity_rule oils b t oil_type limit = inr (RCon c) ->
  exists us,
    c = {| lhs := us; op := Le; rhs := Num limit |} /\
    forall rho,
      eval rho us == Qsum (fun o => rho (Use o t)) (oils_of_type oils oil_type).
Proof.
  unfold capacity_rule. intros H.
  apply bind_inr in H as (us & Hus & H). injection H as H.
  apply py_cmp_RCon in H. exists (py_sum us). split; [exact H |].
  intros rho. apply (eval_sum_mapM rho _ _ _ _ Hus).
  intros o e He. apply getitem_inr in He as (-> & _). reflexivity.
Qed.

Lemma oils_of_type_index oils oil_type o :
  In o (oils_of_type oils oil_type) -> In o (oils_index oils).
Proof.
  unfold oils_of_type, oils_index. rewrite !in_map_iff.
  intros (r & Hr & Hin). apply filter_In in Hin as (Hin & _). eauto.
Qed.


(** ** The objective *)

Lemma prices_loc_inr prices t o q :
  prices_loc prices t o = inr q ->
  q = p_cell prices t o /\
  In t (p_index prices) /\ In o (p_columns prices) /\
  count_occ Z.eq_dec (p_index prices) t = 1%nat /\
  count_occ string_dec (p_columns prices) o = 1%nat.
Proof.
  unfold prices_loc.
  destruct (count_occ string_dec (p_columns prices) o) as [| [| n]] eqn:Eo;
    try discriminate.
  destruct (count_occ Z.eq_dec (p_index prices) t) as [| [| n]] eqn:Et;
    try discriminate.
  intros H. injection H as <-.
  repeat split.
  - apply (count_occ_In Z.eq_dec). rewrite Et. lia.
  - apply (count_occ_In string_dec). rewrite Eo. lia.
Qed.

Lemma prices_loc_ok prices t o :
  List.NoDup (p_index prices) -> List.NoDup (p_columns prices) ->
  In t (p_index prices) -> In o (p_columns prices) ->
  prices_loc prices t o = inr (p_cell prices t o).
Proof.
  intros HT HC Ht Ho. unfold prices_loc.
  rewrite (proj1 (NoDup_count_occ' string_dec _) HC o Ho).
  rewrite (proj1 (NoDup_count_occ' Z.eq_dec _) HT t Ht). reflexivity.
Qed.

Lemma objective_rule_inr prices params b e sale storage :
  objective_rule prices params b = inr e ->
  params !! "product_sales_price" = Some sale ->
  params !! "storage_cost_per_ton" = Some storage ->
  exists revenue purchase_cost storage_cost,
    e = py_sub (py_sub revenue purchase_cost) storage_cost /\
    forall rho,
      eval rho revenue == Qsum (fun t => rho (Produce t) * sale) (m_T b) /\
      eval rho purchase_cost ==
        Qsum (fun ot => rho (Buy (fst ot) (snd ot))
                        * p_cell prices (snd ot) (fst ot))
             (cross (m_O b) (m_T b)) /\
      eval rho storage_cost ==
        Qsum (fun ot => rho (Stock (fst ot) (snd ot)) * storage)
             (cross (m_O b) (m_T b)).
Proof.
  unfold objective_rule. intros H Hsale Hstorage.
  apply bind_inr in H as (rs & Hrs & H).
  apply bind_inr in H as (ps & Hps & H).
  apply bind_inr in H as (ss & Hss & H).
  injection H as <-.
  exists (py_sum rs), (py_sum ps), (py_sum ss). split; [reflexivity |].
  intros rho. repeat split.
  - apply (eval_sum_mapM rho _ _ _ _ Hrs). intros t e He.
    apply bind_inr in He as (p & Hp & He).
    apply bind_inr in He as (q & Hq & He).
    apply getitem_inr in Hp as (-> & _).
    apply getparam_inr in Hq. rewrite Hsale in Hq. injection Hq as <-.
    injection He as <-. reflexivity.
  - apply (eval_sum_mapM rho _ _ _ _ Hps). intros [o t] e He. simpl in He.
    apply bind_inr in He as (bu & Hbu & He).
    apply bind_inr in He as (q & Hq & He).
    apply getitem_inr in Hbu as (-> & _).
    apply prices_loc_inr in Hq as (-> & _).
    injection He as <-. reflexivity.
  - apply (eval_sum_mapM rho _ _ _ _ Hss). intros [o t] e He. simpl in He.
    apply bind_inr in He as (s & Hs & He).
    apply bind_inr in He as (q & Hq & He).
    apply getitem_inr in Hs as (-> & _).
    apply getparam_inr in Hq. rewrite Hstorage in Hq. injection Hq as <-.
    injection He as <-. reflexivity.
Qed.

(** The converse of [build_inv]: the steps of [build], once each is known
    to succeed, assemble the model. *)
Lemma build_intro oils prices params flag b bal fin veg nonveg prod hmin hmax
    part2 obj :
  declare oils prices params flag = inr b ->
  Constraint "Balance" (cross (m_O b) (m_T b))
    (fun ot => balance_rule params b (fst ot) (snd ot)) = inr bal ->
  Constraint "FinalStock" (m_O b) (final_stock_rule params b) = inr fin ->
  Constraint "VegCapacity" (m_T b)
    (fun t => limit <- getparam params "max_veg_refine_per_month" ;;
              capacity_rule oils b t "Veg" limit) = inr veg ->
  Constraint "NonVegCapacity" (m_T b)
    (fun t => limit <- getparam params "max_nonveg_refine_per_month" ;;
              capacity_rule oils b t "NonVeg" limit) = inr nonveg ->
  Constraint "ProductionDef" (m_T b) (production_def b) = inr prod ->
  Constraint "HardnessMin" (m_T b) (hardness_min_rule oils params b) = inr hmin ->
  Constraint "HardnessMax" (m_T b) (hardness_max_rule oils params b) = inr hmax ->
  (if flag then exists l, build_logical params b = inr l /\ part2 = Some l
   else part2 = None) ->
  objective_rule prices params b = inr obj ->
  build oils prices params flag =
  inr {| decls := b; Balance := bal; FinalStock := fin;
         VegCapacity := veg; NonVegCapacity := nonveg; ProductionDef := prod;
         HardnessMin := hmin; HardnessMax := hmax;
         logical := part2; Objective := (obj, maximize) |}.
Proof.
  intros Hd Hbal Hfin Hveg Hnon Hprod Hmin Hmax Hp2 Hobj.
  unfold build. rewrite Hd. simpl.
  rewrite Hbal. simpl. rewrite Hfin. simpl. rewrite Hveg. simpl.
  rewrite Hnon. simpl. rewrite Hprod. simpl. rewrite Hmin. simpl.
  rewrite Hmax. simpl.
  destruct flag.
  - destruct Hp2 as (l & -> & ->). simpl. rewrite Hobj. reflexivity.
  - subst part2. simpl. rewrite Hobj. reflexivity.
Qed.

(** A discrete build that succeeds shares Part 1 and the objective with
    the continuous build, which succeeds as well. *)
Lemma build_continuous_of_discrete oils prices params md :
  build oils prices params true = inr md ->
  exists bc,
    declare oils prices params false = inr bc /\
    m_T bc = m_T (decls md) /\ m_O bc = m_O (decls md) /\
    m_Buy bc = m_Buy (decls md) /\ m_Use bc = m_Use (decls md) /\
    m_Stock bc = m_Stock (decls md) /\ m_Produce bc = m_Produce (decls md) /\
    m_IsUsed bc = None /\
    build oils prices params false =
    inr {| decls := bc;
           Balance := Balance md; FinalStock := FinalStock md;
           VegCapacity := VegCapacity md; NonVegCapacity := NonVegCapacity md;
           ProductionDef := ProductionDef md;
           HardnessMin := HardnessMin md; HardnessMax := HardnessMax md;
           logical := None; Objective := Objective md |}.
Proof.
  intros Hb.
  destruct (build_inv _ _ _ _ _ Hb)
    as (Hd & Hbal & Hfin & Hveg & Hnon & Hprod & Hmin & Hmax & _ & Hobj & Hsense).
  simpl in *.
  destruct (declare_inr _ _ _ _ _ Hd) as (cap & Hcap & Hdecl).
  rewrite Hdecl in *.
  assert (declare oils prices params false =
          inr {| m_T := Set_init Z.eqb (p_index prices);
                 m_O := Set_init String.eqb (oils_index oils);
                 m_Buy := Var2 Buy (Set_init String.eqb (oils_index oils))
                            (Set_init Z.eqb (p_index prices)) NonNegativeReals None;
                 m_Use := Var2 Use (Set_init String.eqb (oils_index oils))
                            (Set_init Z.eqb (p_index prices)) NonNegativeReals None;
                 m_Stock := Var2 Stock (Set_init String.eqb (oils_index oils))
                              (Set_init Z.eqb (p_index prices)) NonNegativeReals
                              (Some (0, cap));
                 m_Produce := Var1 Produce (Set_init Z.eqb (p_index prices))
                                NonNegativeReals None;
                 m_IsUsed := None |}) as Hdc.
  { unfold declare. apply getparam_inr in Hcap. rewrite Hcap. reflexivity. }
  eexists. split; [exact Hdc |]. repeat (split; [reflexivity |]).
  destruct (Objective md) as [obj s] eqn:Eobj. simpl in Hobj, Hsense. subst s.
  apply build_intro; try assumption; reflexivity.
Qed.

(** C4. Whenever [build] returns a model, its single objective is
    maximised and is the expression [revenue - purchase_cost - storage_cost]
    and nothing else, where [revenue] denotes the sum over periods of
    [Produce[t] * product_sales_price], [purchase_cost] the sum over
    (oil, period) of [Buy[o,t] * prices[t,o]] and [storage_cost] the sum
    over (oil, period) of [Stock[o,t] * storage_cost_per_ton]; the model
    built in the other mode from the same data has the same objective. *)
Theorem C4_objective_is_profit
    oils prices params flag m (rho : assignment) (sale storage : Q) :
  build oils prices params flag = inr m ->
  params !! "product_sales_price" = Some sale ->
  params !! "storage_cost_per_ton" = Some storage ->
  let OT := cross (m_O (decls m)) (m_T (decls m)) in
  let R := Qsum (fun t => rho (Produce t) * sale) (m_T (decls m)) in
  let P := Qsum (fun ot => rho (Buy (fst ot) (snd ot))
                           * p_cell prices (snd ot) (fst ot)) OT in
  let S := Qsum (fun ot => rho (Stock (fst ot) (snd ot)) * storage) OT in
  exists revenue purchase_cost storage_cost,
    Objective m = (py_sub (py_sub revenue purchase_cost) storage_cost, maximize) /\
    eval rho revenue == R /\
    eval rho purchase_cost == P /\
    eval rho storage_cost == S /\
    objective_value m rho == R - P - S /\
    (forall m', build oils prices params (negb flag) = inr m' ->
                Objective m' = Objective m).
Proof.
  intros Hb Hsale Hstorage OT R P S.
  destruct (build_inv _ _ _ _ _ Hb) as (_ & _ & _ & _ & _ & _ & _ & _ & _ & Hobj & Hsense).
  destruct (objective_rule_inr _ _ _ _ _ _ Hobj Hsale Hstorage)
    as (revenue & purchase_cost & storage_cost & He & Hev).
  destruct (Hev rho) as (HR & HP & HS).
  exists revenue, purchase_cost, storage_cost.
  split; [| split; [exact HR | split; [exact HP | split; [exact HS | split]]]].
  - destruct (Objective m) as [e s]. simpl in *. congruence.
  - unfold objective_value. rewrite He, !eval_py_sub, HR, HP, HS. reflexivity.
  - intros m' Hb'. destruct flag; simpl in Hb'.
    + destruct (build_continuous_of_discrete _ _ _ _ Hb) as (bc & _ & _ & _ & _ & _ & _ & _ & _ & Hc).
      rewrite Hc in Hb'. injection Hb' as <-. reflexivity.
    + destruct (build_continuous_of_discrete _ _ _ _ Hb') as (bc & _ & _ & _ & _ & _ & _ & _ & _ & Hc).
      rewrite Hc in Hb. injection Hb as <-. reflexivity.
Qed.

Lemma C4_witness :
  exists m,
    build load_oils_data load_market_prices get_parameters false = inr m /\
    objective_value m plan_oil3 == - 54000.
Proof.
  run_build m Hb.
  destruct (C4_objective_is_profit _ _ _ _ m plan_oil3 150 5 Hb)
    as (revenue & purchase_cost & storage_cost & _ & _ & _ & _ & Hval & _);
    [vm_compute; reflexivity | vm_compute; reflexivity |].
  rewrite Hval.
  rewrite (proj1 (build_sets _ _ _ _ _ Hb)), (proj2 (build_sets _ _ _ _ _ Hb)).
  vm_compute. reflexivity.
Defined.

(** ** Discrete mode restricts continuous mode *)

(** C5. From identical reference data, whenever the discrete-mode build
    returns a model, the continuous-mode build returns one too, with the
    same sets, the same [Buy], [Use], [Stock] and [Produce] variables, the
    same seven constraint families of Part 1 and the same objective; the
    discrete model only adds [IsUsed] and the families of Part 2.  Every
    assignment feasible for the discrete model is feasible for the
    continuous one with the same objective value, every bound on the
    continuous objective bounds the discrete one, and the optimal value of
    the discrete model is at most that of the continuous model. *)
Theorem C5_discrete_below_continuous oils prices params md :
  build oils prices params true = inr md ->
  exists mc,
    build oils prices params false = inr mc /\
    m_T (decls mc) = m_T (decls md) /\ m_O (decls mc) = m_O (decls md) /\
    m_Buy (decls mc) = m_Buy (decls md) /\
    m_Use (decls mc) = m_Use (decls md) /\
    m_Stock (decls mc) = m_Stock (decls md) /\
    m_Produce (decls mc) = m_Produce (decls md) /\
    m_IsUsed (decls mc) = None /\
    continuous_constraints mc = continuous_constraints md /\
    all_constraints mc = continuous_constraints md /\
    (exists l, logical md = Some l /\
       all_constraints md =
         (continuous_constraints md ++ logical_constraints l)%list) /\
    Objective mc = Objective md /\
    (forall rho, feasible md rho ->
       feasible mc rho /\ objective_value mc rho = objective_value md rho) /\
    (forall bound,
       (forall rho, feasible mc rho -> objective_value mc rho <= bound) ->
       (forall rho, feasible md rho -> objective_value md rho <= bound)) /\
    (forall rho_d rho_c,
       optimal md rho_d -> optimal mc rho_c ->
       objective_value md rho_d <= objective_value mc rho_c).
Proof.
  intros Hb.
  destruct (build_continuous_of_discrete _ _ _ _ Hb)
    as (bc & _ & HT & HO & HBuy & HUse & HStock & HProd & HIs & Hc).
  destruct (build_inv _ _ _ _ _ Hb) as (_ & _ & _ & _ & _ & _ & _ & _ & Hl & _).
  destruct Hl as (l & _ & Hlog).
  eexists. split; [exact Hc |]. simpl.
  repeat (split; [assumption || reflexivity |]).
  assert (forall rho, feasible md rho ->
            feasible
              {| decls := bc;
                 Balance := Balance md; FinalStock := FinalStock md;
                 VegCapacity := VegCapacity md;
                 NonVegCapacity := NonVegCapacity md;
                 ProductionDef := ProductionDef md;
                 HardnessMin := HardnessMin md; HardnessMax := HardnessMax md;
                 logical := None; Objective := Objective md |} rho) as Hfeas.
  { intros rho [Hv Hcs]. split.
    - rewrite List.Forall_forall in *. intros d Hd. apply Hv.
      unfold all_vars in *. simpl in Hd.
      rewrite HBuy, HUse, HStock, HProd, HIs in Hd.
      rewrite !in_app_iff in *. simpl in Hd. tauto.
    - rewrite List.Forall_forall in *. intros c Hin. apply Hcs.
      unfold all_constraints in *. simpl in Hin.
      rewrite app_nil_r in Hin. apply in_or_app. left. exact Hin. }
  split.
  { unfold all_constraints, continuous_constraints. simpl.
    now rewrite app_nil_r. }
  split.
  { exists l. split; [exact Hlog |]. unfold all_constraints. now rewrite Hlog. }
  split; [reflexivity |].
  split; [intros rho Hf; split; [now apply Hfeas | reflexivity] |].
  split.
  - intros bound Hbound rho Hf. apply (Hbound rho). now apply Hfeas.
  - intros rho_d rho_c [Hfd _] [_ Hopt].
    apply (Hopt rho_d). now apply Hfeas.
Qed.

Lemma C5_witness :
  exists md,
    build load_oils_data load_market_prices get_parameters true = inr md /\
    feasible md plan_oil3 /\
    exists mc,
      build load_oils_data load_market_prices get_parameters false = inr mc /\
      feasible mc plan_oil3 /\
      objective_value mc plan_oil3 = objective_value md plan_oil3.
Proof.
  run_build md Hb.
  assert (feasible md plan_oil3) as Hf by check_feasible Hb.
  split; [exact Hf |].
  destruct (C5_discrete_below_continuous _ _ _ md Hb)
    as (mc & Hc & _ & _ & _ & _ & _ & _ & _ & _ & _ & _ & _ & Hfeas & _).
  exists mc. split; [exact Hc |]. exact (Hfeas plan_oil3 Hf).
Defined.

(** ** Part 2: the logical dependency rules *)

Lemma getitem_IsUsed_inv oils prices params flag b o t e :
  declare oils prices params flag = inr b ->
  getitem_IsUsed b o t = inr e ->
  flag = true /\ In o (oils_index oils) /\ In t (p_index prices).
Proof.
  intros Hd H. apply declare_inr in Hd as (cap & _ & ->).
  unfold getitem_IsUsed in H. simpl in H.
  destruct flag; [| discriminate].
  apply (getitem_Var2_inv IsUsed IsUsed_inj) in H as (Ho & Ht).
  apply (proj1 (Set_init_In String.eqb str_eqb_spec _ _)) in Ho.
  apply (proj1 (Set_init_In Z.eqb z_eqb_spec _ _)) in Ht. auto.
Qed.

Lemma logic_rule_inr b (dependent : string) t r :
  (a <- getitem_IsUsed b dependent t ;;
   c <- getitem_IsUsed b "OIL3" t ;; ret (py_le a c)) = inr r ->
  r = RCon {| lhs := V (IsUsed dependent t); op := Le;
              rhs := V (IsUsed "OIL3" t) |} /\
  getitem_IsUsed b dependent t = inr (V (IsUsed dependent t)) /\
  getitem_IsUsed b "OIL3" t = inr (V (IsUsed "OIL3" t)).
Proof.
  intros H.
  apply bind_inr in H as (a & Ha & H).
  apply bind_inr in H as (c & Hc & H).
  pose proof (getitem_IsUsed_inr _ _ _ _ Ha) as ->.
  pose proof (getitem_IsUsed_inr _ _ _ _ Hc) as ->.
  injection H as <-. auto.
Qed.

(** The two dependency families of a built discrete model, in closed form. *)
Lemma build_logic_families oils prices params m :
  build oils prices params true = inr m ->
  exists l,
    logical m = Some l /\
    LogicVeg1 l =
      map (fun t => (t, {| lhs := V (IsUsed "VEG1" t); op := Le;
                           rhs := V (IsUsed "OIL3" t) |})) (m_T (decls m)) /\
    LogicVeg2 l =
      map (fun t => (t, {| lhs := V (IsUsed "VEG2" t); op := Le;
                           rhs := V (IsUsed "OIL3" t) |})) (m_T (decls m)).
Proof.
  intros Hb.
  destruct (build_inv _ _ _ _ _ Hb) as (_ & _ & _ & _ & _ & _ & _ & _ & Hl & _).
  destruct Hl as (l & Hl & Hlog).
  destruct (build_logical_inv _ _ _ Hl) as (_ & _ & _ & H1 & H2).
  exists l. split; [exact Hlog |]. split.
  - apply (Constraint_inr_map _ _ _ _ _ H1).
    intros t r _ Hr. now apply logic_rule_inr in Hr as (-> & _).
  - apply (Constraint_inr_map _ _ _ _ _ H2).
    intros t r _ Hr. now apply logic_rule_inr in Hr as (-> & _).
Qed.

(** A discrete build over at least one period has looked up all three
    literal oil ids. *)
Lemma build_discrete_ids oils prices params m t :
  build oils prices params true = inr m ->
  In t (m_T (decls m)) ->
  In "VEG1" (oils_index oils) /\ In "VEG2" (oils_index oils) /\
  In "OIL3" (oils_index oils).
Proof.
  intros Hb Ht.
  destruct (build_inv _ _ _ _ _ Hb) as (Hd & _ & _ & _ & _ & _ & _ & _ & Hl & _).
  destruct Hl as (l & Hl & _).
  destruct (build_logical_inv _ _ _ Hl) as (_ & _ & _ & H1 & H2).
  destruct (Constraint_inr_rule _ _ _ _ t H1 Ht) as (c1 & Hc1 & _).
  destruct (Constraint_inr_rule _ _ _ _ t H2 Ht) as (c2 & Hc2 & _).
  apply logic_rule_inr in Hc1 as (_ & Hv1 & Ho3).
  apply logic_rule_inr in Hc2 as (_ & Hv2 & _).
  apply (getitem_IsUsed_inv _ _ _ _ _ _ _ _ Hd) in Hv1 as (_ & Hv1 & _).
  apply (getitem_IsUsed_inv _ _ _ _ _ _ _ _ Hd) in Hv2 as (_ & Hv2 & _).
  apply (getitem_IsUsed_inv _ _ _ _ _ _ _ _ Hd) in Ho3 as (_ & Ho3 & _).
  auto.
Qed.

(** A build over a non-empty catalog has at least one period. *)
Lemma build_periods_of_oils oils prices params flag m o :
  build oils prices params flag = inr m ->
  In o (m_O (decls m)) -> exists t, In t (m_T (decls m)).
Proof.
  intros Hb Ho.
  destruct (build_inv _ _ _ _ _ Hb) as (_ & _ & Hfin & _).
  destruct (Constraint_inr_rule _ _ _ _ o Hfin Ho) as (c & Hc & _).
  apply final_stock_rule_inr in Hc as (tn & q & Htn & _).
  exists tn. now apply last_In.
Qed.

(** C7 (as the code has it). In discrete mode the Logical Implication
    family is instantiated, for every period [t], as exactly the two
    constraints [IsUsed[VEG1,t] <= IsUsed[OIL3,t]] (family [LogicVeg1]) and
    [IsUsed[VEG2,t] <= IsUsed[OIL3,t]] (family [LogicVeg2]): the family the
    specification describes, for the pairs [builtin_pairs] written in the
    rules.  The pairs are not read from the parameters: whatever dictionary
    is supplied, a successful build from the same catalog and price table
    yields the same two families. *)
Theorem C7_builtin_dependency_pairs oils prices params m :
  build oils prices params true = inr m ->
  exists l,
    logical m = Some l /\
    LogicVeg1 l =
      map (fun t => (t, {| lhs := V (IsUsed "VEG1" t); op := Le;
                           rhs := V (IsUsed "OIL3" t) |})) (m_T (decls m)) /\
    LogicVeg2 l =
      map (fun t => (t, {| lhs := V (IsUsed "VEG2" t); op := Le;
                           rhs := V (IsUsed "OIL3" t) |})) (m_T (decls m)) /\
    (forall c,
       In c (constraints_of (LogicVeg1 l) ++ constraints_of (LogicVeg2 l)) <->
       In c (spec_logical_implication builtin_pairs (m_T (decls m)))) /\
    (forall params' m' l',
       build oils prices params' true = inr m' -> logical m' = Some l' ->
       LogicVeg1 l' = LogicVeg1 l /\ LogicVeg2 l' = LogicVeg2 l).
Proof.
  intros Hb.
  destruct (build_logic_families _ _ _ _ Hb) as (l & Hlog & H1 & H2).
  exists l. repeat (split; [assumption |]). split.
  - intros c. rewrite H1, H2. unfold constraints_of, spec_logical_implication.
    rewrite !map_map, in_app_iff, in_flat_map, !in_map_iff. simpl. split.
    + intros [(t & <- & Ht) | (t & <- & Ht)]; exists t; tauto.
    + intros (t & Ht & [<- | [<- | []]]); eauto.
  - intros params' m' l' Hb' Hlog'.
    destruct (build_logic_families _ _ _ _ Hb') as (l0 & Hlog0 & H1' & H2').
    rewrite Hlog' in Hlog0. injection Hlog0 as <-.
    rewrite H1, H2, H1', H2'.
    rewrite (proj1 (build_sets _ _ _ _ _ Hb)), (proj1 (build_sets _ _ _ _ _ Hb')).
    auto.
Qed.

Lemma C7_witness :
  exists m,
    build load_oils_data load_market_prices get_parameters true = inr m /\
    exists l,
      logical m = Some l /\
      In (2%Z, {| lhs := V (IsUsed "VEG2" 2); op := Le;
                  rhs := V (IsUsed "OIL3" 2) |}) (LogicVeg2 l).
Proof.
  run_build m Hb.
  destruct (C7_builtin_dependency_pairs _ _ _ m Hb) as (l & Hlog & _ & H2 & _).
  exists l. split; [exact Hlog |].
  rewrite H2, (proj1 (build_sets _ _ _ _ _ Hb)).
  vm_compute. tauto.
Defined.

(** C7, the claim as stated, fails.  Were the pairs supplied by the
    parameters, some dictionary would let the two-oil catalog (which has no
    VEG1, VEG2 or OIL3) build in discrete mode, and some two dictionaries
    would give the reference catalog different dependency families.
    Neither happens. *)
Lemma C7_counterexample :
  ~ (exists params m, build two_oils two_months params true = inr m) /\
  ~ (exists params params' m m' l l',
       build load_oils_data load_market_prices params true = inr m /\
       build load_oils_data load_market_prices params' true = inr m' /\
       logical m = Some l /\ logical m' = Some l' /\
       (LogicVeg1 l <> LogicVeg1 l' \/ LogicVeg2 l <> LogicVeg2 l')).
Proof.
  split.
  - intros (params & m & Hb).
    destruct (build_discrete_ids _ _ _ m 1%Z Hb) as (H & _).
    + rewrite (proj1 (build_sets _ _ _ _ _ Hb)). vm_compute. tauto.
    + vm_compute in H. intuition discriminate.
  - intros (params & params' & m & m' & l & l' & Hb & Hb' & Hl & Hl' & Hne).
    destruct (build_logic_families _ _ _ _ Hb) as (l0 & Hl0 & H1 & H2).
    destruct (build_logic_families _ _ _ _ Hb') as (l0' & Hl0' & H1' & H2').
    rewrite Hl in Hl0. injection Hl0 as <-.
    rewrite Hl' in Hl0'. injection Hl0' as <-.
    rewrite (proj1 (build_sets _ _ _ _ _ Hb)) in H1, H2.
    rewrite (proj1 (build_sets _ _ _ _ _ Hb')) in H1', H2'.
    destruct Hne as [Hne | Hne]; apply Hne; congruence.
Qed.

(** ** An empty category *)

(** C8, at the failing input: for the reference scenario restricted to its
    three non-vegetable oils, the category Veg has no member; the rule of
    [VegCapacity] then returns the Python [bool] of [0 <= 200.0] instead of
    a constraint, [pyo.Constraint] rejects it, and [build] raises the
    [ValueError] without producing a model. *)
Theorem C8_empty_category_rejected :
  oils_of_type nonveg_oils "Veg" = [] /\
  (b <- declare nonveg_oils load_market_prices get_parameters false ;;
   capacity_rule nonveg_oils b 1 "Veg" 200) = inr (RBool true) /\
  build nonveg_oils load_market_prices get_parameters false
    = inl (ValueError "VegCapacity") /\
  build nonveg_oils load_market_prices get_parameters true
    = inl (ValueError "VegCapacity").
Proof. repeat split; vm_compute; reflexivity. Qed.

(** ** The literal oil ids of Part 2 *)

(** C10 (as the code has it). A discrete-mode build that returns a model
    has indexed [IsUsed] at the literal ids VEG1, VEG2 and OIL3 for every
    period (the two dependency families are exactly those constraints), and
    it returns a model only when all three ids are in the catalog, or when
    the catalog and the price table are both empty.  So for a catalog that
    lacks one of the ids, with at least one oil or one month, discrete
    [build] raises an error.  Continuous mode has no such requirement: the
    two-oil scenario, which has none of the ids, builds. *)
Theorem C10_literal_ids_required oils prices params :
  (forall m,
     build oils prices params true = inr m ->
     ((In "VEG1" (oils_index oils) /\ In "VEG2" (oils_index oils) /\
       In "OIL3" (oils_index oils)) \/
      (oils_index oils = [] /\ p_index prices = [])) /\
     exists l,
       logical m = Some l /\
       LogicVeg1 l =
         map (fun t => (t, {| lhs := V (IsUsed "VEG1" t); op := Le;
                              rhs := V (IsUsed "OIL3" t) |})) (m_T (decls m)) /\
       LogicVeg2 l =
         map (fun t => (t, {| lhs := V (IsUsed "VEG2" t); op := Le;
                              rhs := V (IsUsed "OIL3" t) |})) (m_T (decls m))) /\
  (oils_index oils <> [] \/ p_index prices <> [] ->
   ~ (In "VEG1" (oils_index oils) /\ In "VEG2" (oils_index oils) /\
      In "OIL3" (oils_index oils)) ->
   exists e, build oils prices params true = inl e) /\
  (exists mc,
     build two_oils two_months get_parameters false = inr mc /\
     ~ In "VEG1" (oils_index two_oils) /\ ~ In "VEG2" (oils_index two_oils) /\
     ~ In "OIL3" (oils_index two_oils)).
Proof.
  assert (forall m,
            build oils prices params true = inr m ->
            (In "VEG1" (oils_index oils) /\ In "VEG2" (oils_index oils) /\
             In "OIL3" (oils_index oils)) \/
            (oils_index oils = [] /\ p_index prices = [])) as Hids.
  { intros m Hb.
    destruct (build_sets _ _ _ _ _ Hb) as (HT & HO).
    destruct (m_T (decls m)) as [| t T'] eqn:ET.
    - right. symmetry in HT. apply Set_init_nil in HT; [| exact z_eqb_spec].
      split; [| exact HT].
      destruct (m_O (decls m)) as [| o O'] eqn:EO.
      + symmetry in HO. now apply Set_init_nil in HO; [| exact str_eqb_spec].
      + destruct (build_periods_of_oils _ _ _ _ _ o Hb) as (t & Ht).
        * rewrite EO. now left.
        * rewrite ET in Ht. contradiction.
    - left. apply (build_discrete_ids _ _ _ m t Hb). rewrite ET. now left. }
  split; [| split].
  - intros m Hb. split; [now apply (Hids m) |].
    exact (build_logic_families _ _ _ _ Hb).
  - intros Hne Hmiss.
    destruct (build oils prices params true) as [e | m] eqn:Hb; [eauto |].
    destruct (Hids m Logic.eq_refl) as [H | [HO HT]]; [contradiction |].
    destruct Hne; contradiction.
  - destruct (build two_oils two_months get_parameters false) as [e | mc] eqn:Hb;
      [vm_compute in Hb; discriminate |].
    exists mc. split; [reflexivity |].
    vm_compute. intuition discriminate.
Qed.

Lemma C10_witness :
  exists e, build two_oils two_months get_parameters true = inl e.
Proof.
  apply (proj1 (proj2 (C10_literal_ids_required two_oils two_months get_parameters))).
  - left. vm_compute. discriminate.
  - vm_compute. intuition discriminate.
Defined.

(** C10, the claim as stated, fails at the empty scenario: with no oil and
    no month, no rule runs, and discrete [build] returns a model although
    none of the three ids is in the catalog. *)
Lemma C10_counterexample :
  ~ (forall m,
       build no_oils no_months get_parameters true = inr m ->
       In "VEG1" (oils_index no_oils) /\ In "VEG2" (oils_index no_oils) /\
       In "OIL3" (oils_index no_oils)).
Proof.
  intros H.
  destruct (build no_oils no_months get_parameters true) as [e | m] eqn:Hb;
    [vm_compute in Hb; discriminate |].
  destruct (H m Logic.eq_refl) as (H1 & _). exact H1.
Qed.

(** ** [solve]: result extraction *)

Lemma mapM_ret_map {A B} (f : A -> M B) (g : A -> B) (l : list A) :
  (forall x, In x l -> f x = inr (g x)) -> mapM f l = inr (map g l).
Proof.
  induction l as [| x l IH]; simpl; intros H; [reflexivity |].
  rewrite (H x); [| now left]. simpl.
  rewrite IH; [reflexivity |]. intros y Hy. apply H. now right.
Qed.

Lemma extract_loaded m values rho :
  (forall v, values v = Some (rho v)) ->
  extract m values =
  inr (flat_map (fun t => map (row_of rho t) (m_O (decls m))) (m_T (decls m))).
Proof.
  intros Hv. unfold extract.
  rewrite (mapM_ret_map _ (fun t => map (row_of rho t) (m_O (decls m)))).
  - simpl. now rewrite flat_map_concat_map.
  - intros t _. apply mapM_ret_map. intros o _.
    unfold value. rewrite !Hv. reflexivity.
Qed.

Lemma NoDup_month_oil (T : list Z) (O : list string) :
  List.NoDup T -> List.NoDup O ->
  List.NoDup (flat_map (fun t => map (fun o => (t, o)) O) T).
Proof.
  intros HT HO. induction HT as [| t T Hnin _ IH]; simpl; [constructor |].
  apply List.NoDup_app.
  - clear -HO. induction HO as [| o O Hnin _ IH]; simpl; constructor; [| exact IH].
    rewrite in_map_iff. intros (o' & Heq & Hin). injection Heq as ->. auto.
  - exact IH.
  - intros [t' o'] Hin Hin'. apply in_map_iff in Hin as (o & Heq & _).
    injection Heq as <- <-.
    apply in_flat_map in Hin' as (t' & Ht' & Hin').
    apply in_map_iff in Hin' as (o' & Heq & _). injection Heq as ->. auto.
Qed.

(** C9 (as the code has it). Extraction is the second half of the method
    [solve].  When the solver succeeds and has loaded a value into every
    variable, [solve] returns the solver's result object and stores in
    [self.result_data] (a side effect) the sequence of rows
    [{Month, Oil, Buy, Use, Stock}], months outermost, which holds exactly
    one row per (oil, period) pair of the model.  The stored model and the
    reference data are left as they were; the variables' values are the
    ones the solver loaded. *)
Theorem C9_solve_extracts_rows
    (results : Type)
    (solver : option Model -> M (results * (var -> option Q)))
    (self : Instance) flag m (result : results) values (rho : assignment) :
  build (self_oils self) (self_prices self) (self_params self) flag = inr m ->
  self_model self = Some m ->
  solver (Some m) = inr (result, values) ->
  (forall v, values v = Some (rho v)) ->
  let self' := fst (solve results solver self) in
  let rows := self_result_data self' in
  snd (solve results solver self) = inr result /\
  rows = flat_map (fun t => map (row_of rho t) (m_O (decls m)))
                  (m_T (decls m)) /\
  length rows = (length (m_T (decls m)) * length (m_O (decls m)))%nat /\
  List.NoDup (map (fun r => (Month r, Oil r)) rows) /\
  (forall o t, In o (m_O (decls m)) -> In t (m_T (decls m)) ->
     In (row_of rho t o) rows /\
     forall r, In r rows -> Month r = t -> Oil r = o -> r = row_of rho t o) /\
  (forall r, In r rows ->
     In (Oil r) (m_O (decls m)) /\ In (Month r) (m_T (decls m))) /\
  self_model self' = self_model self /\
  self_oils self' = self_oils self /\
  self_prices self' = self_prices self /\
  self_params self' = self_params self /\
  self_values self' = values.
Proof.
  intros Hb Hm Hs Hv self' rows.
  assert (solve results solver self =
          ({| self_oils := self_oils self;
              self_prices := self_prices self;
              self_params := self_params self;
              self_model := Some m;
              self_values := values;
              self_result_data :=
                flat_map (fun t => map (row_of rho t) (m_O (decls m)))
                         (m_T (decls m)) |}, inr result)) as Hsolve.
  { unfold solve. rewrite Hm, Hs, (extract_loaded m values rho Hv). reflexivity. }
  subst rows self'. rewrite Hsolve. simpl.
  assert (forall r,
            In r (flat_map (fun t => map (row_of rho t) (m_O (decls m)))
                           (m_T (decls m))) <->
            exists t o, In t (m_T (decls m)) /\ In o (m_O (decls m)) /\
                        r = row_of rho t o) as Hin.
  { intros r. rewrite in_flat_map. split.
    - intros (t & Ht & Hr). apply in_map_iff in Hr as (o & <- & Ho). eauto.
    - intros (t & o & Ht & Ho & ->). exists t. split; [exact Ht |].
      apply in_map_iff. eauto. }
  split; [reflexivity |]. split; [reflexivity |]. split.
  { rewrite flat_map_constant_length with (c := length (m_O (decls m)));
      [reflexivity |].
    intros t _. apply length_map. }
  split.
  { replace (map _ _) with
      (flat_map (fun t => map (fun o => (t, o)) (m_O (decls m))) (m_T (decls m))).
    - destruct (build_sets _ _ _ _ _ Hb) as (-> & ->).
      apply NoDup_month_oil; apply Set_init_NoDup;
        [exact z_eqb_spec | exact str_eqb_spec].
    - rewrite !flat_map_concat_map, concat_map, map_map.
      f_equal. apply map_ext. intros t. now rewrite map_map. }
  split.
  { intros o t Ho Ht. split.
    - apply Hin. eauto.
    - intros r Hr <- <-. apply Hin in Hr as (t & o & _ & _ & ->). reflexivity. }
  split.
  { intros r Hr. apply Hin in Hr as (t & o & Ht & Ho & ->). auto. }
  rewrite Hm. auto.
Qed.

Lemma C9_witness :
  exists self,
    fst (build_method (init load_oils_data load_market_prices get_parameters)
           false) = self /\
    length (self_result_data (fst (solve unit (solver_stub plan_oil3) self)))
      = 30%nat.
Proof.
  eexists. split; [reflexivity |].
  destruct (build load_oils_data load_market_prices get_parameters false)
    as [e | m] eqn:Hb; [vm_compute in Hb; discriminate |].
  unfold build_method, init. simpl. rewrite Hb.
  destruct (C9_solve_extracts_rows unit (solver_stub plan_oil3)
              {| self_oils := load_oils_data;
                 self_prices := load_market_prices;
                 self_params := get_parameters;
                 self_model := Some m;
                 self_values := fun _ => None;
                 self_result_data := [] |} false m tt
              (fun v => Some (plan_oil3 v)) plan_oil3 Hb Logic.eq_refl Logic.eq_refl
              (fun v => Logic.eq_refl)) as (_ & _ & Hlen & _).
  simpl in Hlen. simpl. rewrite Hlen.
  destruct (build_sets _ _ _ _ _ Hb) as (-> & ->). reflexivity.
Defined.

(** C9, the claim as stated, fails: [solve] does not leave the instance
    unchanged.  On the reference scenario, right after [build],
    [result_data] is empty; after [solve] it holds the thirty rows. *)
Lemma C9_counterexample :
  let self :=
    fst (build_method (init load_oils_data load_market_prices get_parameters)
           false) in
  self_result_data (fst (solve unit (solver_stub plan_idle) self))
    <> self_result_data self.
Proof. vm_compute. discriminate. Qed.

(** ** What [build] reads, and when it succeeds *)

Lemma max_ingredients_rule_inr params b t r :
  max_ingredients_rule params b t = inr r ->
  exists q, params !! "max_ingredients_per_month" = Some q.
Proof.
  unfold max_ingredients_rule. intros H.
  apply bind_inr in H as (ys & _ & H).
  apply bind_inr in H as (q & Hq & _).
  apply getparam_inr in Hq. eauto.
Qed.

Lemma objective_rule_reads prices params b e o t :
  objective_rule prices params b = inr e ->
  In o (m_O b) -> In t (m_T b) ->
  (exists q, params !! "product_sales_price" = Some q) /\
  (exists q, params !! "storage_cost_per_ton" = Some q) /\
  In o (p_columns prices).
Proof.
  unfold objective_rule. intros H Ho Ht.
  apply bind_inr in H as (rs & Hrs & H).
  apply bind_inr in H as (ps & Hps & H).
  apply bind_inr in H as (ss & Hss & _).
  destruct (mapM_inr_In _ _ _ t Hrs Ht) as (y1 & H1 & _).
  destruct (mapM_inr_In _ _ _ (o, t) Hps) as (y2 & H2 & _);
    [now apply in_cross |].
  destruct (mapM_inr_In _ _ _ (o, t) Hss) as (y3 & H3 & _);
    [now apply in_cross |].
  simpl in H2, H3.
  apply bind_inr in H1 as (p & _ & H1). apply bind_inr in H1 as (q1 & Hq1 & _).
  apply bind_inr in H2 as (bu & _ & H2). apply bind_inr in H2 as (q2 & Hq2 & _).
  apply bind_inr in H3 as (s & _ & H3). apply bind_inr in H3 as (q3 & Hq3 & _).
  apply getparam_inr in Hq1. apply getparam_inr in Hq3.
  apply prices_loc_inr in Hq2 as (_ & _ & Hcol & _). eauto.
Qed.

(** A successful build over at least one oil and one month has read every
    key of its mode and one price per (oil, month). *)
Lemma build_reads oils prices params flag m :
  build oils prices params flag = inr m ->
  oils_index oils <> [] -> p_index prices <> [] ->
  (forall k, In k (required_keys flag) -> exists q, params !! k = Some q) /\
  (forall o, In o (oils_index oils) -> In o (p_columns prices)).
Proof.
  intros Hb HO HT.
  destruct (build_sets _ _ _ _ _ Hb) as (ET & EO).
  destruct (build_inv _ _ _ _ _ Hb)
    as (Hd & Hbal & Hfin & Hveg & Hnon & _ & Hmin & Hmax & Hl & Hobj & _).
  simpl in *.
  assert (exists o0, In o0 (m_O (decls m))) as (o0 & Ho0).
  { rewrite EO. destruct (oils_index oils) as [| o0 l]; [contradiction |].
    exists o0. apply (Set_init_In String.eqb str_eqb_spec). now left. }
  assert (exists t1, first (m_T (decls m)) = inr t1) as (t1 & Ht1).
  { rewrite ET. destruct (p_index prices) as [| t0 l]; [contradiction |].
    exists t0. reflexivity. }
  pose proof (first_In _ _ Ht1) as Ht1in.
  split.
  - assert (exists q, params !! "storage_capacity_per_oil" = Some q) as K1.
    { apply declare_inr in Hd as (cap & Hcap & _). eauto. }
    assert (exists q, params !! "initial_stock" = Some q) as K2.
    { destruct (Constraint_inr_rule _ _ _ _ (o0, t1) Hbal) as (c & Hc & _);
        [now apply in_cross |].
      simpl in Hc. apply balance_rule_inr in Hc as (t1' & prev & Ht1' & Hp & _).
      rewrite Ht1 in Ht1'. injection Ht1' as <-. rewrite Z.eqb_refl in Hp.
      destruct Hp as (q & Hq & _). eauto. }
    assert (exists q, params !! "target_final_stock" = Some q) as K3.
    { destruct (Constraint_inr_rule _ _ _ _ o0 Hfin Ho0) as (c & Hc & _).
      apply final_stock_rule_inr in Hc as (tn & q & _ & Hq & _). eauto. }
    assert (exists q, params !! "max_veg_refine_per_month" = Some q) as K4.
    { destruct (Constraint_inr_rule _ _ _ _ t1 Hveg Ht1in) as (c & Hc & _).
      apply bind_inr in Hc as (q & Hq & _). apply getparam_inr in Hq. eauto. }
    assert (exists q, params !! "max_nonveg_refine_per_month" = Some q) as K5.
    { destruct (Constraint_inr_rule _ _ _ _ t1 Hnon Ht1in) as (c & Hc & _).
      apply bind_inr in Hc as (q & Hq & _). apply getparam_inr in Hq. eauto. }
    assert (exists q, params !! "min_hardness" = Some q) as K6.
    { destruct (Constraint_inr_rule _ _ _ _ t1 Hmin Ht1in) as (c & Hc & _).
      apply hardness_min_rule_inr in Hc as (tot & q & _ & Hq & _). eauto. }
    assert (exists q, params !! "max_hardness" = Some q) as K7.
    { destruct (Constraint_inr_rule _ _ _ _ t1 Hmax Ht1in) as (c & Hc & _).
      apply hardness_max_rule_inr in Hc as (tot & q & _ & Hq & _). eauto. }
    destruct (objective_rule_reads _ _ _ _ o0 t1 Hobj Ho0 Ht1in) as (K8 & K9 & _).
    intros k Hk. unfold required_keys in Hk. simpl in Hk.
    do 9 (destruct Hk as [<- | Hk]; [assumption |]).
    destruct flag; [| contradiction].
    + destruct Hl as (l & Hl & _).
      destruct (build_logical_inv _ _ _ Hl) as (_ & Hthr & Hing & _).
      destruct Hk as [<- | [<- | []]].
      * destruct (Constraint_inr_rule _ _ _ _ (o0, t1) Hthr) as (c & Hc & _);
          [now apply in_cross |].
        simpl in Hc. apply min_usage_rule_inr in Hc as (q & Hq & _). eauto.
      * destruct (Constraint_inr_rule _ _ _ _ t1 Hing Ht1in) as (c & Hc & _).
        now apply max_ingredients_rule_inr in Hc.
  - intros o Ho.
    apply (objective_rule_reads _ _ _ _ o t1 Hobj); [| exact Ht1in].
    rewrite EO. now apply (Set_init_In String.eqb str_eqb_spec).
Qed.

Lemma fold_py_add_expr (l : list expr) (a : expr) :
  (forall q, a <> Num q) -> forall q, fold_left py_add l a <> Num q.
Proof.
  revert a. induction l as [| x l IH]; simpl; intros a Ha; [exact Ha |].
  apply IH. intros q. destruct a, x; simpl; try discriminate.
  exfalso. eapply Ha. reflexivity.
Qed.

(** A [sum] whose first term is a Pyomo expression is a Pyomo expression. *)
Lemma py_sum_expr (x : expr) (l : list expr) :
  (forall q, x <> Num q) -> forall q, py_sum (x :: l) <> Num q.
Proof.
  intros Hx. unfold py_sum. simpl. apply fold_py_add_expr.
  intros q. destruct x; simpl; try discriminate. exfalso. eapply Hx. reflexivity.
Qed.

Lemma py_cmp_expr_l (r : rel) (a b : expr) :
  (forall q, a <> Num q) -> py_cmp r a b = RCon {| lhs := a; op := r; rhs := b |}.
Proof.
  intros Ha. destruct a; try reflexivity. exfalso. eapply Ha. reflexivity.
Qed.

Lemma py_cmp_expr_r (r : rel) (a b : expr) :
  (forall q, b <> Num q) -> py_cmp r a b = RCon {| lhs := a; op := r; rhs := b |}.
Proof.
  intros Hb. destruct a, b; try reflexivity. exfalso. eapply Hb. reflexivity.
Qed.

Lemma py_sum_vars_expr {A} (f : A -> var) (l : list A) :
  l <> [] -> forall q, py_sum (map (fun x => V (f x)) l) <> Num q.
Proof.
  destruct l as [| x l]; [contradiction |]. intros _. simpl.
  apply py_sum_expr. discriminate.
Qed.

Lemma filter_id_length oils o :
  length (List.filter (fun r => String.eqb (id r) o) oils)
  = count_occ string_dec (oils_index oils) o.
Proof.
  unfold oils_index. induction oils as [| r oils IH]; simpl; [reflexivity |].
  destruct (string_dec (id r) o) as [E | E].
  - apply String.eqb_eq in E. rewrite E. simpl. now rewrite IH.
  - apply String.eqb_neq in E. rewrite E. exact IH.
Qed.

(** The hardness lookup yields a number exactly for the labels that one
    row of the catalog carries. *)
Lemma oils_loc_hardness_scalar oils o :
  (exists h, oils_loc_hardness oils o = inr h) <->
  count_occ string_dec (oils_index oils) o = 1%nat.
Proof.
  rewrite <- filter_id_length. unfold oils_loc_hardness.
  destruct (List.filter (fun r => String.eqb (id r) o) oils)
    as [| r [| r' l]]; simpl; split;
    try discriminate; try (intros (h & H); discriminate); eauto.
Qed.

Lemma oils_loc_hardness_total oils o :
  List.NoDup (oils_index oils) ->
  In o (oils_index oils) -> exists h, oils_loc_hardness oils o = inr h.
Proof.
  intros Hnd Ho. apply oils_loc_hardness_scalar.
  exact (proj1 (NoDup_count_occ' string_dec _) Hnd o Ho).
Qed.

Lemma prices_loc_scalar prices t o :
  count_occ Z.eq_dec (p_index prices) t = 1%nat ->
  count_occ string_dec (p_columns prices) o = 1%nat ->
  prices_loc prices t o = inr (p_cell prices t o).
Proof. intros Ht Ho. unfold prices_loc. now rewrite Ho, Ht. Qed.

Section BuildSucceeds.
Variable oils : oils_df.
Variable prices : prices_df.
Variable params : gmap string Q.
Variable flag : bool.
Variable b : Block.
Hypothesis Hd : declare oils prices params flag = inr b.

Lemma declared_getitem o t :
  In o (m_O b) -> In t (m_T b) ->
  getitem (m_Buy b) (Buy o t) = inr (V (Buy o t)) /\
  getitem (m_Use b) (Use o t) = inr (V (Use o t)) /\
  getitem (m_Stock b) (Stock o t) = inr (V (Stock o t)) /\
  getitem (m_Produce b) (Produce t) = inr (V (Produce t)) /\
  (flag = true -> getitem_IsUsed b o t = inr (V (IsUsed o t))).
Proof.
  destruct (declare_inr _ _ _ _ _ Hd) as (cap & _ & ->). simpl.
  intros Ho Ht. unfold getitem_IsUsed. simpl.
  repeat split; try (apply getitem_Var2; assumption).
  - apply getitem_Produce; assumption.
  - intros ->. apply getitem_Var2; assumption.
Qed.

Lemma declared_sets :
  (forall o, In o (m_O b) <-> In o (oils_index oils)) /\
  (forall t, In t (m_T b) <-> In t (p_index prices)) /\
  first (m_T b) = match p_index prices with
                  | [] => raise (IndexError "T")
                  | t :: _ => ret t
                  end.
Proof.
  destruct (declare_inr _ _ _ _ _ Hd) as (cap & _ & ->). simpl.
  split; [| split].
  - intros o. apply (Set_init_In String.eqb str_eqb_spec).
  - intros t. apply (Set_init_In Z.eqb z_eqb_spec).
  - destruct (p_index prices); reflexivity.
Qed.

Lemma balance_rule_ok o t q :
  params !! "initial_stock" = Some q ->
  consecutive_months (p_index prices) ->
  In o (m_O b) -> In t (m_T b) ->
  exists c, balance_rule params b o t = inr (RCon c).
Proof.
  intros Hq Hcons Ho Ht.
  destruct declared_sets as (_ & HT & Hfirst).
  destruct (declared_getitem o t Ho Ht) as (Hbu & Hu & Hs & _).
  unfold balance_rule.
  pose proof (proj1 (HT t) Ht) as Htp.
  destruct (first_total _ _ Ht) as (t1 & Ht1). rewrite Ht1. simpl.
  destruct (Z.eqb t t1) eqn:Et.
  - apply getparam_inr in Hq. rewrite Hq. simpl.
    rewrite Hs. simpl. rewrite Hbu. simpl. rewrite Hu. simpl. eauto.
  - destruct (Hcons t Htp) as [Hhd | Hprev].
    + exfalso. rewrite Hfirst in Ht1.
      destruct (p_index prices) as [| t0 l]; simpl in *; [discriminate |].
      injection Hhd as ->. injection Ht1 as ->.
      rewrite Z.eqb_refl in Et. discriminate.
    + apply HT in Hprev.
      destruct (declared_getitem o (t - 1)%Z Ho Hprev) as (_ & _ & Hs' & _).
      rewrite Hs'. simpl.
      rewrite Hs. simpl. rewrite Hbu. simpl. rewrite Hu. simpl. eauto.
Qed.

Lemma final_stock_rule_ok o q t :
  params !! "target_final_stock" = Some q ->
  In o (m_O b) -> In t (m_T b) ->
  exists c, final_stock_rule params b o = inr (RCon c).
Proof.
  intros Hq Ho Ht. unfold final_stock_rule.
  destruct (last_total _ _ Ht) as (tn & Htn). rewrite Htn. simpl.
  destruct (declared_getitem o tn Ho (last_In _ _ Htn)) as (_ & _ & Hs & _).
  rewrite Hs. simpl. apply getparam_inr in Hq. rewrite Hq. simpl. eauto.
Qed.

Lemma capacity_rule_ok t oil_type limit :
  oils_of_type oils oil_type <> [] -> In t (m_T b) ->
  exists c, capacity_rule oils b t oil_type limit = inr (RCon c).
Proof.
  intros Hne Ht. unfold capacity_rule.
  rewrite (mapM_ret_map _ (fun o => V (Use o t))).
  - simpl. unfold py_le. rewrite py_cmp_expr_l; [eauto |].
    now apply py_sum_vars_expr.
  - intros o Ho. apply declared_getitem; [| exact Ht].
    apply declared_sets. eapply oils_of_type_index; eassumption.
Qed.

Lemma production_def_ok t :
  In t (m_T b) -> exists c, production_def b t = inr (RCon c).
Proof.
  intros Ht. unfold production_def.
  destruct (m_O b) as [| o0 l] eqn:EO.
  - destruct (declare_inr _ _ _ _ _ Hd) as (cap & _ & Hb).
    rewrite Hb in Ht |- *. simpl in *. rewrite getitem_Produce by exact Ht.
    simpl. eauto.
  - rewrite <- EO.
    destruct (declared_getitem o0 t) as (_ & _ & _ & Hp & _);
      [rewrite EO; now left | exact Ht |].
    rewrite Hp. simpl.
    rewrite (mapM_ret_map _ (fun o => V (Use o t))); [simpl; eauto |].
    intros o Ho. now apply declared_getitem.
Qed.

Lemma total_hardness_ok t :
  List.NoDup (oils_index oils) ->
  In t (m_T b) -> exists total, total_hardness oils b t = inr total.
Proof.
  intros Hnd Ht. unfold total_hardness.
  destruct (mapM_total
              (fun o => h <- oils_loc_hardness oils o ;;
                        u <- getitem (m_Use b) (Use o t) ;;
                        ret (py_mul (Num h) u)) (m_O b)) as (hs & Hhs).
  - intros o Ho.
    destruct (oils_loc_hardness_total oils o Hnd) as (h & Hh);
      [now apply declared_sets |].
    destruct (declared_getitem o t Ho Ht) as (_ & Hu & _).
    rewrite Hh. simpl. rewrite Hu. simpl. eauto.
  - rewrite Hhs. simpl. eauto.
Qed.

Lemma hardness_rules_ok t o qmin qmax :
  List.NoDup (oils_index oils) ->
  params !! "min_hardness" = Some qmin ->
  params !! "max_hardness" = Some qmax ->
  In o (m_O b) -> In t (m_T b) ->
  (exists c, hardness_min_rule oils params b t = inr (RCon c)) /\
  (exists c, hardness_max_rule oils params b t = inr (RCon c)).
Proof.
  intros Hnd Hmin Hmax Ho Ht.
  destruct (total_hardness_ok t Hnd Ht) as (total & Htot).
  destruct (declared_getitem o t Ho Ht) as (_ & _ & _ & Hp & _).
  apply getparam_inr in Hmin. apply getparam_inr in Hmax.
  unfold hardness_min_rule, hardness_max_rule.
  rewrite Htot, Hmin, Hmax, Hp. simpl.
  unfold py_ge, py_le. rewrite !py_cmp_expr_r by discriminate. eauto.
Qed.

Lemma objective_rule_ok qs qc :
  params !! "product_sales_price" = Some qs ->
  params !! "storage_cost_per_ton" = Some qc ->
  List.NoDup (p_index prices) ->
  (forall o, In o (oils_index oils) ->
             count_occ string_dec (p_columns prices) o = 1%nat) ->
  exists e, objective_rule prices params b = inr e.
Proof.
  intros Hqs Hqc HndT Hcols.
  apply getparam_inr in Hqs. apply getparam_inr in Hqc.
  destruct declared_sets as (HO & HT & _).
  unfold objective_rule.
  destruct (mapM_total
              (fun t => p <- getitem (m_Produce b) (Produce t) ;;
                        q <- getparam params "product_sales_price" ;;
                        ret (py_mul p (Num q))) (m_T b)) as (rs & Hrs).
  { intros t Ht.
    destruct (m_O b) as [| o0 l] eqn:EO.
    - destruct (declare_inr _ _ _ _ _ Hd) as (cap & _ & Hb).
      rewrite Hb in Ht |- *. simpl in *. rewrite getitem_Produce by exact Ht.
      simpl. rewrite Hqs. simpl. eauto.
    - destruct (declared_getitem o0 t) as (_ & _ & _ & Hp & _);
        [rewrite EO; now left | exact Ht |].
      rewrite Hp. simpl. rewrite Hqs. simpl. eauto. }
  destruct (mapM_total
              (fun ot => bu <- getitem (m_Buy b) (Buy (fst ot) (snd ot)) ;;
                         q <- prices_loc prices (snd ot) (fst ot) ;;
                         ret (py_mul bu (Num q)))
              (cross (m_O b) (m_T b))) as (ps & Hps).
  { intros [o t] Hin. apply in_cross in Hin as (Ho & Ht). simpl.
    destruct (declared_getitem o t Ho Ht) as (Hbu & _).
    rewrite Hbu. simpl.
    rewrite (prices_loc_scalar prices t o);
      [simpl; eauto | | apply Hcols; now apply HO].
    exact (proj1 (NoDup_count_occ' Z.eq_dec _) HndT t (proj1 (HT t) Ht)). }
  destruct (mapM_total
              (fun ot => s <- getitem (m_Stock b) (Stock (fst ot) (snd ot)) ;;
                         q <- getparam params "storage_cost_per_ton" ;;
                         ret (py_mul s (Num q)))
              (cross (m_O b) (m_T b))) as (ss & Hss).
  { intros [o t] Hin. apply in_cross in Hin as (Ho & Ht). simpl.
    destruct (declared_getitem o t Ho Ht) as (_ & _ & Hs & _).
    rewrite Hs. simpl. rewrite Hqc. simpl. eauto. }
  rewrite Hrs. simpl. rewrite Hps. simpl. rewrite Hss. simpl. eauto.
Qed.
End BuildSucceeds.

Lemma build_logical_ok oils prices params b qu qi :
  declare oils prices params true = inr b ->
  params !! "min_usage_if_used" = Some qu ->
  params !! "max_ingredients_per_month" = Some qi ->
  In "VEG1" (m_O b) -> In "VEG2" (m_O b) -> In "OIL3" (m_O b) ->
  exists l, build_logical params b = inr l.
Proof.
  intros Hd Hqu Hqi H1 H2 H3.
  apply getparam_inr in Hqu. apply getparam_inr in Hqi.
  pose proof (declared_getitem _ _ _ _ _ Hd) as Hget.
  destruct (Constraint_total "LinkVars" (cross (m_O b) (m_T b))
              (fun ot => link_rule b (fst ot) (snd ot))) as (link & Hlink).
  { intros [o t] Hin. apply in_cross in Hin as (Ho & Ht). simpl.
    destruct (Hget o t Ho Ht) as (_ & Hu & _ & _ & Hy).
    unfold link_rule. rewrite Hu, (Hy Logic.eq_refl). simpl. eauto. }
  destruct (Constraint_total "MinThreshold" (cross (m_O b) (m_T b))
              (fun ot => min_usage_rule params b (fst ot) (snd ot)))
    as (thr & Hthr).
  { intros [o t] Hin. apply in_cross in Hin as (Ho & Ht). simpl.
    destruct (Hget o t Ho Ht) as (_ & Hu & _ & _ & Hy).
    unfold min_usage_rule. rewrite Hu, Hqu, (Hy Logic.eq_refl). simpl. eauto. }
  destruct (Constraint_total "MaxIngredients" (m_T b)
              (max_ingredients_rule params b)) as (ing & Hing).
  { intros t Ht. unfold max_ingredients_rule.
    rewrite (mapM_ret_map _ (fun o => V (IsUsed o t))).
    - simpl. rewrite Hqi. simpl. unfold py_le.
      rewrite py_cmp_expr_l; [eauto |]. apply py_sum_vars_expr.
      intros E. rewrite E in H1. contradiction.
    - intros o Ho. now apply (Hget o t Ho Ht). }
  destruct (Constraint_total "LogicVeg1" (m_T b) (logic_veg1_rule b))
    as (l1 & Hl1).
  { intros t Ht. unfold logic_veg1_rule.
    destruct (Hget "VEG1" t H1 Ht) as (_ & _ & _ & _ & Ha).
    destruct (Hget "OIL3" t H3 Ht) as (_ & _ & _ & _ & Hc).
    rewrite (Ha Logic.eq_refl), (Hc Logic.eq_refl). simpl. eauto. }
  destruct (Constraint_total "LogicVeg2" (m_T b) (logic_veg2_rule b))
    as (l2 & Hl2).
  { intros t Ht. unfold logic_veg2_rule.
    destruct (Hget "VEG2" t H2 Ht) as (_ & _ & _ & _ & Ha).
    destruct (Hget "OIL3" t H3 Ht) as (_ & _ & _ & _ & Hc).
    rewrite (Ha Logic.eq_refl), (Hc Logic.eq_refl). simpl. eauto. }
  unfold build_logical. rewrite Hlink. simpl. rewrite Hthr. simpl.
  rewrite Hing. simpl. rewrite Hl1. simpl. rewrite Hl2. simpl. eauto.
Qed.

(** Sufficient conditions for [build] to return a model. *)
Lemma build_succeeds_unique oils prices params flag :
  List.NoDup (oils_index oils) ->
  List.NoDup (p_index prices) ->
  (forall o, In o (oils_index oils) ->
             count_occ string_dec (p_columns prices) o = 1%nat) ->
  (forall k, In k (required_keys flag) -> exists q, params !! k = Some q) ->
  p_index prices <> [] ->
  consecutive_months (p_index prices) ->
  oils_of_type oils "Veg" <> [] ->
  oils_of_type oils "NonVeg" <> [] ->
  (flag = true ->
   In "VEG1" (oils_index oils) /\ In "VEG2" (oils_index oils) /\
   In "OIL3" (oils_index oils)) ->
  exists m, build oils prices params flag = inr m.
Proof.
  intros HndO HndT Hcols Hkeys HT Hcons Hveg Hnon Hids.
  assert (forall k, In k (required_keys false) -> exists q, params !! k = Some q)
    as Hk.
  { intros k Hin. apply Hkeys. unfold required_keys in *.
    apply in_or_app. left. simpl in Hin. simpl. tauto. }
  destruct (Hk "storage_capacity_per_oil") as (cap & Hcap); [simpl; tauto |].
  destruct (Hk "initial_stock") as (q0 & Hq0); [simpl; tauto |].
  destruct (Hk "target_final_stock") as (qn & Hqn); [simpl; tauto |].
  destruct (Hk "max_veg_refine_per_month") as (qv & Hqv); [simpl; tauto |].
  destruct (Hk "max_nonveg_refine_per_month") as (qnv & Hqnv); [simpl; tauto |].
  destruct (Hk "min_hardness") as (qmin & Hqmin); [simpl; tauto |].
  destruct (Hk "max_hardness") as (qmax & Hqmax); [simpl; tauto |].
  destruct (Hk "product_sales_price") as (qs & Hqs); [simpl; tauto |].
  destruct (Hk "storage_cost_per_ton") as (qc & Hqc); [simpl; tauto |].
  destruct (declare oils prices params flag) as [e | b] eqn:Hd.
  { unfold declare in Hd. apply getparam_inr in Hcap. rewrite Hcap in Hd.
    discriminate. }
  destruct (declared_sets _ _ _ _ _ Hd) as (HO & HTs & _).
  assert (exists o0, In o0 (m_O b)) as (o0 & Ho0).
  { destruct (oils_of_type oils "Veg") as [| o0 l] eqn:E; [contradiction |].
    exists o0. apply HO. apply (oils_of_type_index oils "Veg").
    rewrite E. now left. }
  assert (exists t0, In t0 (m_T b)) as (t0 & Ht0).
  { destruct (p_index prices) as [| t0 l] eqn:E; [contradiction |].
    exists t0. apply HTs. now left. }
  destruct (Constraint_total "Balance" (cross (m_O b) (m_T b))
              (fun ot => balance_rule params b (fst ot) (snd ot)))
    as (bal & Hbal).
  { intros [o t] Hin. apply in_cross in Hin as (Ho & Ht). simpl.
    eapply balance_rule_ok; eassumption. }
  destruct (Constraint_total "FinalStock" (m_O b) (final_stock_rule params b))
    as (fin & Hfin).
  { intros o Ho. eapply final_stock_rule_ok; eassumption. }
  destruct (Constraint_total "VegCapacity" (m_T b)
              (fun t => limit <- getparam params "max_veg_refine_per_month" ;;
                        capacity_rule oils b t "Veg" limit)) as (veg & Hvegc).
  { intros t Ht. apply getparam_inr in Hqv. rewrite Hqv. simpl.
    eapply capacity_rule_ok; eassumption. }
  destruct (Constraint_total "NonVegCapacity" (m_T b)
              (fun t => limit <- getparam params "max_nonveg_refine_per_month" ;;
                        capacity_rule oils b t "NonVeg" limit))
    as (nonveg & Hnonc).
  { intros t Ht. apply getparam_inr in Hqnv. rewrite Hqnv. simpl.
    eapply capacity_rule_ok; eassumption. }
  destruct (Constraint_total "ProductionDef" (m_T b) (production_def b))
    as (prod & Hprod).
  { intros t Ht. eapply production_def_ok; eassumption. }
  destruct (Constraint_total "HardnessMin" (m_T b)
              (hardness_min_rule oils params b)) as (hmin & Hhmin).
  { intros t Ht.
    apply (hardness_rules_ok _ _ _ _ _ Hd t o0 qmin qmax); assumption. }
  destruct (Constraint_total "HardnessMax" (m_T b)
              (hardness_max_rule oils params b)) as (hmax & Hhmax).
  { intros t Ht.
    apply (hardness_rules_ok _ _ _ _ _ Hd t o0 qmin qmax); assumption. }
  destruct (objective_rule_ok _ _ _ _ _ Hd qs qc Hqs Hqc HndT Hcols)
    as (obj & Hobj).
  assert (exists part2,
            if flag then exists l, build_logical params b = inr l /\ part2 = Some l
            else part2 = None) as (part2 & Hp2).
  { destruct flag; [| eauto].
    destruct (Hkeys "min_usage_if_used") as (qu & Hqu);
      [unfold required_keys; apply in_or_app; right; simpl; tauto |].
    destruct (Hkeys "max_ingredients_per_month") as (qi & Hqi);
      [unfold required_keys; apply in_or_app; right; simpl; tauto |].
    destruct (Hids Logic.eq_refl) as (H1 & H2 & H3).
    destruct (build_logical_ok _ _ _ _ qu qi Hd Hqu Hqi) as (l & Hl);
      try (apply HO; assumption).
    eauto. }
  eexists.
  apply (build_intro _ _ _ _ _ _ _ _ _ _ _ _ _ _ Hd Hbal Hfin Hvegc Hnonc Hprod
           Hhmin Hhmax Hp2 Hobj).
Qed.


(** A successful build over at least one oil and one month has looked up
    the hardness of every oil and the price of every (oil, month), each as
    a number: the labels it used are unique. *)
Lemma build_unique_labels oils prices params flag m :
  build oils prices params flag = inr m ->
  oils_index oils <> [] -> p_index prices <> [] ->
  List.NoDup (oils_index oils) /\
  List.NoDup (p_index prices) /\
  (forall o, In o (oils_index oils) ->
             count_occ string_dec (p_columns prices) o = 1%nat).
Proof.
  intros Hb HO HT.
  destruct (build_sets _ _ _ _ _ Hb) as (ET & EO).
  destruct (build_inv _ _ _ _ _ Hb)
    as (_ & _ & _ & _ & _ & _ & Hmin & _ & _ & Hobj & _).
  simpl in *.
  assert (forall o, In o (oils_index oils) -> In o (m_O (decls m))) as HinO.
  { intros o Ho. rewrite EO. now apply (Set_init_In String.eqb str_eqb_spec). }
  assert (forall t, In t (p_index prices) -> In t (m_T (decls m))) as HinT.
  { intros t Ht. rewrite ET. now apply (Set_init_In Z.eqb z_eqb_spec). }
  assert (exists o0, In o0 (oils_index oils)) as (o0 & Ho0).
  { destruct (oils_index oils) as [| o0 l]; [contradiction |].
    exists o0. now left. }
  assert (exists t0, In t0 (p_index prices)) as (t0 & Ht0).
  { destruct (p_index prices) as [| t0 l]; [contradiction |].
    exists t0. now left. }
  assert (forall o t, In o (oils_index oils) -> In t (p_index prices) ->
            count_occ Z.eq_dec (p_index prices) t = 1%nat /\
            count_occ string_dec (p_columns prices) o = 1%nat) as Hprice.
  { intros o t Ho Ht. unfold objective_rule in Hobj.
    apply bind_inr in Hobj as (rs & _ & Hobj).
    apply bind_inr in Hobj as (ps & Hps & _).
    destruct (mapM_inr_In _ _ _ (o, t) Hps) as (y & Hy & _);
      [apply in_cross; auto |].
    simpl in Hy. apply bind_inr in Hy as (bu & _ & Hy).
    apply bind_inr in Hy as (q & Hq & _).
    apply prices_loc_inr in Hq as (_ & _ & _ & H1 & H2). auto. }
  split; [| split].
  - apply (NoDup_count_occ' string_dec). intros o Ho.
    destruct (Constraint_inr_rule _ _ _ _ t0 Hmin (HinT _ Ht0)) as (c & Hc & _).
    apply hardness_min_rule_inr in Hc as (total & q & Htot & _).
    unfold total_hardness in Htot. apply bind_inr in Htot as (hs & Hhs & _).
    destruct (mapM_inr_In _ _ _ o Hhs (HinO _ Ho)) as (y & Hy & _).
    apply bind_inr in Hy as (h & Hh & _).
    apply oils_loc_hardness_scalar. eauto.
  - apply (NoDup_count_occ' Z.eq_dec). intros t Ht.
    now apply (Hprice o0 t Ho0 Ht).
  - intros o Ho. now apply (Hprice o t0 Ho Ht0).
Qed.


(** Discharge [In k l -> ..] over a literal list, case by case. *)
Ltac each_member H tac :=
  simpl in H;
  repeat (destruct H as [<- | H]; [tac |]);
  try contradiction.

Ltac literal_NoDup :=
  repeat (apply List.NoDup_cons; [simpl; intuition discriminate |]);
  apply List.NoDup_nil.



(** * Further properties of the model builder *)

(** ** Members and indices of a constraint family *)

Lemma Forall2_In_r {A B} (R : A -> B -> Prop) l r y :
  Forall2 R l r -> In y r -> exists x, In x l /\ R x y.
Proof.
  intros H. induction H as [| x0 y0 l r Hxy _ IH]; simpl; [contradiction |].
  intros [<- | Hin]; [eauto |].
  destruct (IH Hin) as (x & Hx & HR). eauto.
Qed.

Lemma Constraint_inr_member {I} name (index : list I) rule (fam : family I) i c :
  Constraint name index rule = inr fam -> In (i, c) fam ->
  In i index /\ rule i = inr (RCon c).
Proof.
  intros H Hin. unfold Constraint in H. apply mapM_inr_Forall2 in H.
  destruct (Forall2_In_r _ _ _ _ H Hin) as (x & Hx & Hf).
  apply bind_inr in Hf as (r & Hr & Hf).
  destruct r as [bl | c']; [discriminate |].
  injection Hf as -> ->. auto.
Qed.

Lemma Constraint_inr_index {I} name (index : list I) rule (fam : family I) :
  Constraint name index rule = inr fam -> map fst fam = index.
Proof.
  intros H. unfold Constraint in H. apply mapM_inr_Forall2 in H.
  induction H as [| x y l r Hxy _ IH]; simpl; [reflexivity |].
  rewrite IH. f_equal.
  apply bind_inr in Hxy as (r0 & _ & Hxy).
  destruct r0 as [bl | c]; [discriminate |]. injection Hxy as <-. reflexivity.
Qed.

Lemma length_cross (O : list string) (T : list Z) :
  length (cross O T) = (length O * length T)%nat.
Proof.
  unfold cross. rewrite flat_map_constant_length with (c := length T);
    [reflexivity |].
  intros o _. apply length_map.
Qed.

(** X9. Every constraint family of a built model has exactly one
    constraint per element of its index set, in the order of the set:
    [Balance] over (oil, period), [FinalStock] over oils, the five other
    families of Part 1 over periods and, in discrete mode, [LinkVars] and
    [MinThreshold] over (oil, period) and the three other families of
    Part 2 over periods; continuous mode has no Part 2.  So the model
    holds [|O||T| + |O| + 5|T|] constraints, plus [2|O||T| + 3|T|] in
    discrete mode. *)
Theorem X9_one_constraint_per_index oils prices params flag m :
  build oils prices params flag = inr m ->
  let O := m_O (decls m) in
  let T := m_T (decls m) in
  map fst (Balance m) = cross O T /\
  map fst (FinalStock m) = O /\
  map fst (VegCapacity m) = T /\
  map fst (NonVegCapacity m) = T /\
  map fst (ProductionDef m) = T /\
  map fst (HardnessMin m) = T /\
  map fst (HardnessMax m) = T /\
  (if flag
   then exists l,
       logical m = Some l /\
       map fst (LinkVars l) = cross O T /\
       map fst (MinThreshold l) = cross O T /\
       map fst (MaxIngredients l) = T /\
       map fst (LogicVeg1 l) = T /\
       map fst (LogicVeg2 l) = T
   else logical m = None) /\
  length (all_constraints m) =
    (length O * length T + length O + 5 * length T +
     (if flag then 2 * (length O * length T) + 3 * length T else 0))%nat.
Proof.
  intros Hb O T.
  destruct (build_inv _ _ _ _ _ Hb)
    as (_ & Hbal & Hfin & Hveg & Hnon & Hprod & Hmin & Hmax & Hl & _).
  simpl in *. fold O T in Hbal, Hfin, Hveg, Hnon, Hprod, Hmin, Hmax.
  apply Constraint_inr_index in Hbal, Hfin, Hveg, Hnon, Hprod, Hmin, Hmax.
  assert (forall I (f : family I), length (constraints_of f) = length (map fst f))
    as Hlen.
  { intros I f. unfold constraints_of. now rewrite !length_map. }
  assert (length (continuous_constraints m)
          = (length O * length T + length O + 5 * length T)%nat) as Hcont.
  { unfold continuous_constraints. rewrite !length_app, !Hlen.
    rewrite Hbal, Hfin, Hveg, Hnon, Hprod, Hmin, Hmax, length_cross. lia. }
  repeat (split; [assumption |]).
  destruct flag.
  - destruct Hl as (l & Hl & Hlog).
    destruct (build_logical_inv _ _ _ Hl) as (H1 & H2 & H3 & H4 & H5).
    fold O T in H1, H2, H3, H4, H5.
    apply Constraint_inr_index in H1, H2, H3, H4, H5.
    split; [exists l; auto 10 |].
    unfold all_constraints. rewrite Hlog, length_app, Hcont.
    unfold logical_constraints. rewrite !length_app, !Hlen.
    rewrite H1, H2, H3, H4, H5, length_cross. lia.
  - split; [exact Hl |].
    unfold all_constraints. rewrite Hl, length_app, Hcont. simpl. lia.
Qed.

Lemma X9_witness :
  exists m,
    build load_oils_data load_market_prices get_parameters true = inr m /\
    length (all_constraints m) = 143%nat.
Proof.
  run_build m Hb.
  destruct (X9_one_constraint_per_index _ _ _ _ m Hb) as (_ & _ & _ & _ & _ & _ & _ & _ & H).
  rewrite H. destruct (build_sets _ _ _ _ _ Hb) as (-> & ->).
  vm_compute. reflexivity.
Defined.

(** ** Capacity, storage and production *)

Lemma feasible_capacity_totals
    oils prices params flag m (rho : assignment) (t : Z) :
  build oils prices params flag = inr m ->
  feasible m rho ->
  In t (m_T (decls m)) ->
  exists cap_veg cap_nonveg,
    params !! "max_veg_refine_per_month" = Some cap_veg /\
    params !! "max_nonveg_refine_per_month" = Some cap_nonveg /\
    Qsum (fun o => rho (Use o t)) (oils_of_type oils "Veg") <= cap_veg /\
    Qsum (fun o => rho (Use o t)) (oils_of_type oils "NonVeg") <= cap_nonveg.
Proof.
  intros Hb Hf Ht.
  destruct (build_inv _ _ _ _ _ Hb) as (_ & _ & _ & Hveg & Hnon & _).
  simpl in Hveg, Hnon.
  destruct (Constraint_inr_rule _ _ _ _ t Hveg Ht) as (c1 & Hc1 & Hin1).
  destruct (Constraint_inr_rule _ _ _ _ t Hnon Ht) as (c2 & Hc2 & Hin2).
  apply bind_inr in Hc1 as (cv & Hcv & Hc1).
  apply bind_inr in Hc2 as (cn & Hcn & Hc2).
  apply getparam_inr in Hcv. apply getparam_inr in Hcn.
  apply capacity_rule_inr in Hc1 as (us1 & -> & Hus1).
  apply capacity_rule_inr in Hc2 as (us2 & -> & Hus2).
  exists cv, cn. split; [exact Hcv |]. split; [exact Hcn |].
  pose proof (feasible_sat m rho _ Hf
    (in_continuous _ _ (or_intror (or_intror
       (or_introl (in_constraints_of _ _ _ Hin1)))))) as S1.
  pose proof (feasible_sat m rho _ Hf
    (in_continuous _ _ (or_intror (or_intror (or_intror
       (or_introl (in_constraints_of _ _ _ Hin2))))))) as S2.
  unfold sat in S1, S2. simpl in S1, S2.
  rewrite Hus1 in S1. rewrite Hus2 in S2. auto.
Qed.


(** X1. In every feasible assignment of a built model, and for every
    period, the total [Use] of the oils whose catalog type is Veg is at
    most [max_veg_refine_per_month], and the total of the oils of type
    NonVeg is at most [max_nonveg_refine_per_month]. *)
Theorem X1_capacity_respected
    oils prices params flag m (rho : assignment) (t : Z) :
  build oils prices params flag = inr m ->
  feasible m rho ->
  In t (m_T (decls m)) ->
  exists cap_veg cap_nonveg,
    params !! "max_veg_refine_per_month" = Some cap_veg /\
    params !! "max_nonveg_refine_per_month" = Some cap_nonveg /\
    Qsum (fun o => rho (Use o t)) (oils_of_type oils "Veg") <= cap_veg /\
    Qsum (fun o => rho (Use o t)) (oils_of_type oils "NonVeg") <= cap_nonveg.
Proof.
  intros Hb Hf Ht.
  destruct (build_inv _ _ _ _ _ Hb) as (_ & _ & _ & Hveg & Hnon & _).
  simpl in Hveg, Hnon.
  destruct (Constraint_inr_rule _ _ _ _ t Hveg Ht) as (c1 & Hc1 & Hin1).
  destruct (Constraint_inr_rule _ _ _ _ t Hnon Ht) as (c2 & Hc2 & Hin2).
  apply bind_inr in Hc1 as (cv & Hcv & Hc1).
  apply bind_inr in Hc2 as (cn & Hcn & Hc2).
  apply getparam_inr in Hcv. apply getparam_inr in Hcn.
  apply capacity_rule_inr in Hc1 as (us1 & -> & Hus1).
  apply capacity_rule_inr in Hc2 as (us2 & -> & Hus2).
  exists cv, cn. split; [exact Hcv |]. split; [exact Hcn |].
  pose proof (feasible_sat m rho _ Hf
    (in_continuous _ _ (or_intror (or_intror
       (or_introl (in_constraints_of _ _ _ Hin1)))))) as S1.
  pose proof (feasible_sat m rho _ Hf
    (in_continuous _ _ (or_intror (or_intror (or_intror
       (or_introl (in_constraints_of _ _ _ Hin2))))))) as S2.
  unfold sat in S1, S2. simpl in S1, S2.
  rewrite Hus1 in S1. rewrite Hus2 in S2. auto.
Qed.

Lemma X1_witness :
  exists m,
    build load_oils_data load_market_prices get_parameters false = inr m /\
    feasible m plan_oil3 /\
    Qsum (fun o => plan_oil3 (Use o 4)) (oils_of_type load_oils_data "NonVeg")
      <= 250.
Proof.
  run_build m Hb.
  assert (feasible m plan_oil3) as Hf by check_feasible Hb.
  split; [exact Hf |].
  destruct (X1_capacity_respected _ _ _ _ m plan_oil3 4%Z Hb Hf)
    as (cv & cn & _ & Hcn & _ & H); [in_sets Hb |].
  vm_compute in Hcn. injection Hcn as <-. exact H.
Defined.

(** X2. In every feasible assignment of a built model, every stock level
    lies between [0] and [storage_capacity_per_oil], and [Buy], [Use] and
    [Produce] are non-negative. *)
Theorem X2_stock_within_storage
    oils prices params flag m (rho : assignment) (o : string) (t : Z) :
  build oils prices params flag = inr m ->
  feasible m rho ->
  In o (m_O (decls m)) -> In t (m_T (decls m)) ->
  exists cap,
    params !! "storage_capacity_per_oil" = Some cap /\
    0 <= rho (Stock o t) /\ rho (Stock o t) <= cap /\
    0 <= rho (Buy o t) /\ 0 <= rho (Use o t) /\ 0 <= rho (Produce t).
Proof.
  intros Hb Hf Ho Ht.
  destruct (feasible_nonneg _ _ _ _ _ _ o t Hb Hf Ho Ht) as (Hbuy & Huse & Hst & Hpr).
  destruct (build_inv _ _ _ _ _ Hb) as (Hd & _).
  destruct (declare_inr _ _ _ _ _ Hd) as (cap & Hcap & Hdecl).
  exists cap. split; [exact Hcap |].
  repeat (split; [assumption |]). split; [| auto].
  pose proof (feasible_var m rho
    {| vd_var := Stock o t; vd_domain := NonNegativeReals;
       vd_bounds := Some (0, cap) |} Hf) as Hv.
  rewrite Hdecl in Ho, Ht. simpl in Ho, Ht.
  destruct Hv as [_ Hbnd]; [| simpl in Hbnd; tauto].
  rewrite Hdecl. unfold all_vars. simpl. rewrite !in_app_iff.
  right. right. left. apply (Var2_In Stock). eauto 6.
Qed.

Lemma X2_witness :
  exists m,
    build load_oils_data load_market_prices get_parameters true = inr m /\
    feasible m plan_oil3 /\
    plan_oil3 (Stock "OIL2" 5) <= 1000.
Proof.
  run_build m Hb.
  assert (feasible m plan_oil3) as Hf by check_feasible Hb.
  split; [exact Hf |].
  destruct (X2_stock_within_storage _ _ _ _ m plan_oil3 "OIL2" 5%Z Hb Hf)
    as (cap & Hcap & _ & H & _); [in_sets Hb | in_sets Hb |].
  vm_compute in Hcap. injection Hcap as <-. exact H.
Defined.

Lemma set_add_all_id {A} (eqb : A -> A -> bool)
    (eqb_spec : forall x y, eqb x y = true <-> x = y) (seen l : list A) :
  List.NoDup l -> (forall x, In x l -> ~ In x seen) ->
  set_add_all eqb seen l = l.
Proof.
  revert seen. induction l as [| x l IH]; simpl; intros seen Hnd Hseen;
    [reflexivity |].
  apply List.NoDup_cons_iff in Hnd as (Hx & Hnd).
  destruct (existsb (eqb x) seen) eqn:E.
  - apply (existsb_eqb_In eqb eqb_spec) in E. exfalso.
    apply (Hseen x); auto.
  - f_equal. apply IH; [exact Hnd |].
    intros y Hy [<- | Hin]; [contradiction |].
    apply (Hseen y); auto.
Qed.

(** A frame index without repeated labels is the Pyomo set itself. *)
Lemma Set_init_id {A} (eqb : A -> A -> bool)
    (eqb_spec : forall x y, eqb x y = true <-> x = y) (l : list A) :
  List.NoDup l -> Set_init eqb l = l.
Proof.
  intros H. apply (set_add_all_id eqb eqb_spec); [exact H | auto].
Qed.

Lemma Qsum_by_type (oils : oils_df) (f : string -> Q) :
  (forall r, In r oils -> type r = "Veg" \/ type r = "NonVeg") ->
  Qsum f (oils_index oils) ==
  Qsum f (oils_of_type oils "Veg") + Qsum f (oils_of_type oils "NonVeg").
Proof.
  unfold oils_index, oils_of_type.
  induction oils as [| r oils IH]; simpl; intros Hty; [ring |].
  rewrite IH by (intros r' Hr'; apply Hty; now right).
  destruct (Hty r (or_introl Logic.eq_refl)) as [-> | ->]; simpl; ring.
Qed.

(** X3. In every feasible assignment of a built model, [Produce[t]] is the
    sum of [Use[o,t]] over the oils of the model; when the catalog labels
    are unique and every oil is of type Veg or NonVeg, the month's
    production is therefore at most the sum of the two refining caps. *)
Theorem X3_production_bounded
    oils prices params flag m (rho : assignment) (t : Z) :
  build oils prices params flag = inr m ->
  feasible m rho ->
  In t (m_T (decls m)) ->
  rho (Produce t) == Qsum (fun o => rho (Use o t)) (m_O (decls m)) /\
  (List.NoDup (oils_index oils) ->
   (forall r, In r oils -> type r = "Veg" \/ type r = "NonVeg") ->
   exists cap_veg cap_nonveg,
     params !! "max_veg_refine_per_month" = Some cap_veg /\
     params !! "max_nonveg_refine_per_month" = Some cap_nonveg /\
     rho (Produce t) <= cap_veg + cap_nonveg).
Proof.
  intros Hb Hf Ht.
  pose proof (feasible_production _ _ _ _ _ _ _ Hb Hf Ht) as Hprod.
  split; [exact Hprod |].
  intros Hnd Hty.
  destruct (feasible_capacity_totals _ _ _ _ _ _ _ Hb Hf Ht)
    as (cv & cn & Hcv & Hcn & Hv & Hn).
  exists cv, cn. split; [exact Hcv |]. split; [exact Hcn |].
  rewrite Hprod, (proj2 (build_sets _ _ _ _ _ Hb)).
  rewrite (Set_init_id String.eqb str_eqb_spec _ Hnd).
  rewrite (Qsum_by_type oils _ Hty). lra.
Qed.

Lemma X3_witness :
  exists m,
    build load_oils_data load_market_prices get_parameters false = inr m /\
    feasible m plan_oil3 /\
    plan_oil3 (Produce 2) <= 200 + 250.
Proof.
  run_build m Hb.
  assert (feasible m plan_oil3) as Hf by check_feasible Hb.
  split; [exact Hf |].
  destruct (X3_production_bounded _ _ _ _ m plan_oil3 2%Z Hb Hf) as (_ & H);
    [in_sets Hb |].
  destruct H as (cv & cn & Hcv & Hcn & H).
  - vm_compute. literal_NoDup.
  - intros r Hr. each_member Hr ltac:(simpl; tauto).
  - vm_compute in Hcv. injection Hcv as <-.
    vm_compute in Hcn. injection Hcn as <-. exact H.
Defined.

(** ** Part 2 in a feasible assignment *)

Lemma Qsum_app {A} (f : A -> Q) (l l' : list A) :
  Qsum f (l ++ l') == Qsum f l + Qsum f l'.
Proof. induction l as [| x l IH]; simpl; [ring | rewrite IH; ring]. Qed.

Lemma Qsum_le {A} (f g : A -> Q) (l : list A) :
  (forall x, In x l -> f x <= g x) -> Qsum f l <= Qsum g l.
Proof.
  induction l as [| x l IH]; simpl; intros H; [lra |].
  assert (f x <= g x) by (apply H; now left).
  assert (Qsum f l <= Qsum g l) by (apply IH; intros y Hy; apply H; now right).
  lra.
Qed.

Lemma Qsum_scale {A} (c : Q) (f : A -> Q) (l : list A) :
  Qsum (fun x => c * f x) l == c * Qsum f l.
Proof. induction l as [| x l IH]; simpl; [ring | rewrite IH; ring]. Qed.

(** A sum over distinct elements of [l'] is at most the sum over [l'],
    when no term is negative. *)
Lemma Qsum_incl_le {A} (f : A -> Q) (l l' : list A) :
  List.NoDup l -> incl l l' -> (forall x, In x l' -> 0 <= f x) ->
  Qsum f l <= Qsum f l'.
Proof.
  revert l'. induction l as [| x l IH]; simpl; intros l' Hnd Hincl Hnn.
  - now apply Qsum_nonneg.
  - apply List.NoDup_cons_iff in Hnd as (Hx & Hnd).
    destruct (in_split x l') as (l1 & l2 & ->); [apply Hincl; now left |].
    rewrite Qsum_app. simpl.
    assert (Qsum f l <= Qsum f (l1 ++ l2)) as Hle.
    { apply IH; [exact Hnd | |].
      - intros y Hy. assert (In y (l1 ++ x :: l2)) as Hin
          by (apply Hincl; now right).
        rewrite in_app_iff in *. simpl in Hin.
        destruct Hin as [? | [<- | ?]]; [tauto | contradiction | tauto].
      - intros y Hy. apply Hnn. rewrite in_app_iff in *. simpl. tauto. }
    rewrite Qsum_app in Hle. lra.
Qed.

Lemma Qsum_const_one {A} (f : A -> Q) (l : list A) :
  (forall x, In x l -> f x == 1) ->
  Qsum f l == inject_Z (Z.of_nat (length l)).
Proof.
  induction l as [| x l IH]; intros H; [reflexivity |].
  change (Qsum f (x :: l)) with (f x + Qsum f l).
  rewrite (H x) by now left. rewrite IH by (intros y Hy; apply H; now right).
  change (length (x :: l)) with (S (length l)).
  rewrite Nat2Z.inj_succ. unfold Z.succ. rewrite inject_Z_plus. ring.
Qed.

(** What the linking and threshold constraints and the binary domain give
    at one (oil, period). *)
Lemma discrete_link_facts oils prices params m rho o t :
  build oils prices params true = inr m -> feasible m rho ->
  In o (m_O (decls m)) -> In t (m_T (decls m)) ->
  exists qmin,
    params !! "min_usage_if_used" = Some qmin /\
    (rho (IsUsed o t) == 0 \/ rho (IsUsed o t) == 1) /\
    rho (Use o t) <= big_m * rho (IsUsed o t) /\
    qmin * rho (IsUsed o t) <= rho (Use o t) /\
    0 <= rho (Use o t).
Proof.
  intros Hb Hf Ho Ht.
  destruct (build_inv _ _ _ _ _ Hb) as (Hd & _ & _ & _ & _ & _ & _ & _ & Hl & _).
  destruct Hl as (l & Hl & Hlog).
  destruct (build_logical_inv _ _ _ Hl) as (Hlink & Hthr & _).
  destruct (Constraint_inr_rule _ _ _ _ (o, t) Hlink) as (c1 & Hc1 & Hin1);
    [apply in_cross; auto |].
  destruct (Constraint_inr_rule _ _ _ _ (o, t) Hthr) as (c2 & Hc2 & Hin2);
    [apply in_cross; auto |].
  simpl in Hc1, Hc2.
  apply link_rule_inr in Hc1. injection Hc1 as ->.
  apply min_usage_rule_inr in Hc2 as (qmin & Hqmin & Hc2). injection Hc2 as ->.
  exists qmin. split; [exact Hqmin |].
  pose proof (feasible_sat m rho _ Hf
    (in_logical _ _ _ Hlog (or_introl (in_constraints_of _ _ _ Hin1)))) as S1.
  pose proof (feasible_sat m rho _ Hf
    (in_logical _ _ _ Hlog
       (or_intror (or_introl (in_constraints_of _ _ _ Hin2))))) as S2.
  unfold sat in S1, S2. simpl in S1, S2.
  destruct (feasible_nonneg _ _ _ _ _ _ o t Hb Hf Ho Ht) as (_ & Hu & _).
  split; [| auto].
  apply declare_inr in Hd as (cap & _ & Hdecl).
  pose proof (feasible_var m rho
    {| vd_var := IsUsed o t; vd_domain := Binary; vd_bounds := None |} Hf) as Hv.
  rewrite Hdecl in Ho, Ht. simpl in Ho, Ht.
  destruct Hv as [Hdom _]; [| exact Hdom].
  rewrite Hdecl. unfold all_vars. simpl. rewrite !in_app_iff.
  do 4 right. apply (Var2_In IsUsed). eauto 6.
Qed.

Lemma feasible_max_ingredients oils prices params m rho t :
  build oils prices params true = inr m -> feasible m rho ->
  In t (m_T (decls m)) ->
  exists q,
    params !! "max_ingredients_per_month" = Some q /\
    Qsum (fun o => rho (IsUsed o t)) (m_O (decls m)) <= q.
Proof.
  intros Hb Hf Ht.
  destruct (build_inv _ _ _ _ _ Hb) as (_ & _ & _ & _ & _ & _ & _ & _ & Hl & _).
  destruct Hl as (l & Hl & Hlog).
  destruct (build_logical_inv _ _ _ Hl) as (_ & _ & Hing & _).
  destruct (Constraint_inr_rule _ _ _ _ t Hing Ht) as (c & Hc & Hin).
  unfold max_ingredients_rule in Hc.
  apply bind_inr in Hc as (ys & Hys & Hc).
  apply bind_inr in Hc as (q & Hq & Hc).
  apply getparam_inr in Hq. injection Hc as Hc. apply py_cmp_RCon in Hc.
  subst c. exists q. split; [exact Hq |].
  pose proof (feasible_sat m rho _ Hf
    (in_logical _ _ _ Hlog
       (or_intror (or_intror (or_introl (in_constraints_of _ _ _ Hin)))))) as S.
  unfold sat in S. simpl in S.
  rewrite (eval_sum_mapM rho _ (fun o => rho (IsUsed o t)) _ _ Hys) in S;
    [exact S |].
  intros o e He. apply getitem_IsUsed_inr in He as ->. reflexivity.
Qed.

(** C3, at the failing input.  With the non-vegetable refining cap raised
    to 300 tons in the parameters, the linking constraint still reads
    [Use[o,t] <= 250 * IsUsed[o,t]]: [big_m] is the literal 250, not the
    cap.  In every feasible assignment of the discrete model the two
    implications hold ([IsUsed = 0 -> Use = 0] and
    [IsUsed = 1 -> Use >= min_usage_if_used]), but no oil is ever refined
    beyond 250 tons: the plan that refines 300 tons of OIL3 each month with
    its indicator set is feasible for the continuous model, within the
    cap, and is cut off by the Big-M constraint. *)
Theorem C3_big_m_below_cap :
  exists mc md,
    build load_oils_data load_market_prices parameters_nonveg_300 false
      = inr mc /\
    build load_oils_data load_market_prices parameters_nonveg_300 true
      = inr md /\
    parameters_nonveg_300 !! "max_nonveg_refine_per_month" = Some 300 /\
    (exists l,
       logical md = Some l /\
       In ("OIL3", 1%Z,
           {| lhs := V (Use "OIL3" 1); op := Le;
              rhs := Mul (Num 250) (V (IsUsed "OIL3" 1)) |}) (LinkVars l)) /\
    feasible mc plan_oil3_300 /\
    plan_oil3_300 (Use "OIL3" 1) == 300 /\
    plan_oil3_300 (IsUsed "OIL3" 1) == 1 /\
    (forall rho, feasible md rho ->
       (rho (IsUsed "OIL3" 1) == 0 -> rho (Use "OIL3" 1) == 0) /\
       (rho (IsUsed "OIL3" 1) == 1 -> 20 <= rho (Use "OIL3" 1)) /\
       rho (Use "OIL3" 1) <= 250) /\
    ~ feasible md plan_oil3_300.
Proof.
  destruct (build load_oils_data load_market_prices parameters_nonveg_300 false)
    as [e | mc] eqn:Hbc; [vm_compute in Hbc; discriminate |].
  destruct (build load_oils_data load_market_prices parameters_nonveg_300 true)
    as [e | md] eqn:Hbd; [vm_compute in Hbd; discriminate |].
  exists mc, md.
  split; [reflexivity |]. split; [reflexivity |].
  split; [vm_compute; reflexivity |].
  assert (In "OIL3" (m_O (decls md))) as Ho by in_sets Hbd.
  assert (In 1%Z (m_T (decls md))) as Ht by in_sets Hbd.
  assert (forall rho, feasible md rho ->
            (rho (IsUsed "OIL3" 1) == 0 -> rho (Use "OIL3" 1) == 0) /\
            (rho (IsUsed "OIL3" 1) == 1 -> 20 <= rho (Use "OIL3" 1)) /\
            rho (Use "OIL3" 1) <= 250) as Hall.
  { intros rho Hf.
    destruct (discrete_link_facts _ _ _ _ _ "OIL3" 1%Z Hbd Hf Ho Ht)
      as (qmin & Hq & Hbin & Hlink & Hthr & Hnn).
    vm_compute in Hq. injection Hq as <-. unfold big_m in Hlink.
    repeat split.
    - intros Hz. rewrite Hz in Hlink. lra.
    - intros Hone. rewrite Hone in Hthr. lra.
    - destruct Hbin as [Hz | Hone]; [rewrite Hz in Hlink | rewrite Hone in Hlink];
        lra. }
  split.
  { destruct (build_inv _ _ _ _ _ Hbd) as (_ & _ & _ & _ & _ & _ & _ & _ & Hl & _).
    destruct Hl as (l & Hl & Hlog).
    destruct (build_logical_inv _ _ _ Hl) as (Hlink & _).
    destruct (Constraint_inr_rule _ _ _ _ ("OIL3", 1%Z) Hlink) as (c & Hc & Hin);
      [apply in_cross; auto |].
    simpl in Hc. apply link_rule_inr in Hc. injection Hc as ->.
    exists l. split; [exact Hlog | exact Hin]. }
  split; [check_feasible Hbc |].
  split; [reflexivity |]. split; [reflexivity |].
  split; [exact Hall |].
  intros Hf. destruct (Hall _ Hf) as (_ & _ & Hle).
  vm_compute in Hle. apply Hle. reflexivity.
Qed.

(** X4. In discrete mode, in every feasible assignment and every period,
    the indicators [IsUsed[o,t]] sum to at most
    [max_ingredients_per_month], and so does the number of distinct oils
    that are refined in that period ([Use[o,t] > 0]). *)
Theorem X4_at_most_max_ingredients
    oils prices params m (rho : assignment) (t : Z) :
  build oils prices params true = inr m ->
  feasible m rho ->
  In t (m_T (decls m)) ->
  exists q,
    params !! "max_ingredients_per_month" = Some q /\
    Qsum (fun o => rho (IsUsed o t)) (m_O (decls m)) <= q /\
    forall used : list string,
      List.NoDup used ->
      (forall o, In o used -> In o (m_O (decls m)) /\ 0 < rho (Use o t)) ->
      inject_Z (Z.of_nat (length used)) <= q.
Proof.
  intros Hb Hf Ht.
  destruct (feasible_max_ingredients _ _ _ _ _ _ Hb Hf Ht) as (q & Hq & Hsum).
  exists q. split; [exact Hq |]. split; [exact Hsum |].
  intros used Hnd Hused.
  assert (forall o, In o (m_O (decls m)) -> 0 <= rho (IsUsed o t)) as Hnn.
  { intros o Ho.
    destruct (discrete_link_facts _ _ _ _ _ o t Hb Hf Ho Ht)
      as (_ & _ & [H | H] & _); rewrite H; lra. }
  assert (Qsum (fun o => rho (IsUsed o t)) used
          <= Qsum (fun o => rho (IsUsed o t)) (m_O (decls m))) as Hle.
  { apply Qsum_incl_le; [exact Hnd | | exact Hnn].
    intros o Ho. now apply Hused. }
  rewrite Qsum_const_one in Hle; [lra |].
  intros o Ho. destruct (Hused o Ho) as (HoO & Hpos).
  destruct (discrete_link_facts _ _ _ _ _ o t Hb Hf HoO Ht)
    as (_ & _ & [H | H] & Hlink & _); [| exact H].
  rewrite H in Hlink. unfold big_m in Hlink. lra.
Qed.

Lemma X4_witness :
  exists m,
    build load_oils_data load_market_prices get_parameters true = inr m /\
    feasible m plan_oil3 /\
    inject_Z (Z.of_nat (length ["OIL3"])) <= 3.
Proof.
  run_build m Hb.
  assert (feasible m plan_oil3) as Hf by check_feasible Hb.
  split; [exact Hf |].
  destruct (X4_at_most_max_ingredients _ _ _ m plan_oil3 1%Z Hb Hf)
    as (q & Hq & _ & H); [in_sets Hb |].
  vm_compute in Hq. injection Hq as <-.
  apply H.
  - literal_NoDup.
  - intros o [<- | []]. split; [in_sets Hb | reflexivity].
Defined.

Lemma feasible_logic oils prices params m rho t :
  build oils prices params true = inr m -> feasible m rho ->
  In t (m_T (decls m)) ->
  rho (IsUsed "VEG1" t) <= rho (IsUsed "OIL3" t) /\
  rho (IsUsed "VEG2" t) <= rho (IsUsed "OIL3" t).
Proof.
  intros Hb Hf Ht.
  destruct (build_logic_families _ _ _ _ Hb) as (l & Hlog & H1 & H2).
  split.
  - assert (In (t, {| lhs := V (IsUsed "VEG1" t); op := Le;
                      rhs := V (IsUsed "OIL3" t) |}) (LogicVeg1 l)) as Hin.
    { rewrite H1. apply in_map_iff. eauto. }
    exact (feasible_sat m rho _ Hf
      (in_logical _ _ _ Hlog (or_intror (or_intror (or_intror
         (or_introl (in_constraints_of _ _ _ Hin))))))).
  - assert (In (t, {| lhs := V (IsUsed "VEG2" t); op := Le;
                      rhs := V (IsUsed "OIL3" t) |}) (LogicVeg2 l)) as Hin.
    { rewrite H2. apply in_map_iff. eauto. }
    exact (feasible_sat m rho _ Hf
      (in_logical _ _ _ Hlog (or_intror (or_intror (or_intror
         (or_intror (in_constraints_of _ _ _ Hin))))))).
Qed.

(** X5. In discrete mode, in every feasible assignment and every period:
    if VEG1 or VEG2 is refined ([Use > 0]) then OIL3 is marked used and is
    refined too, with at least [min_usage_if_used] tons. *)
Theorem X5_veg_requires_oil3
    oils prices params m (rho : assignment) (t : Z) :
  build oils prices params true = inr m ->
  feasible m rho ->
  In t (m_T (decls m)) ->
  0 < rho (Use "VEG1" t) \/ 0 < rho (Use "VEG2" t) ->
  exists qmin,
    params !! "min_usage_if_used" = Some qmin /\
    rho (IsUsed "OIL3" t) == 1 /\
    qmin <= rho (Use "OIL3" t).
Proof.
  intros Hb Hf Ht Hveg.
  destruct (build_discrete_ids _ _ _ _ t Hb Ht) as (I1 & I2 & I3).
  pose proof (proj2 (build_sets _ _ _ _ _ Hb)) as HO.
  assert (forall o, In o (oils_index oils) -> In o (m_O (decls m))) as Hin.
  { intros o Ho. rewrite HO. now apply (Set_init_In String.eqb str_eqb_spec). }
  destruct (feasible_logic _ _ _ _ _ _ Hb Hf Ht) as (L1 & L2).
  destruct (discrete_link_facts _ _ _ _ _ "OIL3" t Hb Hf (Hin _ I3) Ht)
    as (qmin & Hq & B3 & _ & T3 & _).
  exists qmin. split; [exact Hq |].
  assert (rho (IsUsed "OIL3" t) == 1) as Hone.
  { destruct Hveg as [Hpos | Hpos].
    - destruct (discrete_link_facts _ _ _ _ _ "VEG1" t Hb Hf (Hin _ I1) Ht)
        as (_ & _ & [B | B] & K & _); unfold big_m in K.
      + rewrite B in K. lra.
      + destruct B3 as [B3 | B3]; [rewrite B, B3 in L1; lra | exact B3].
    - destruct (discrete_link_facts _ _ _ _ _ "VEG2" t Hb Hf (Hin _ I2) Ht)
        as (_ & _ & [B | B] & K & _); unfold big_m in K.
      + rewrite B in K. lra.
      + destruct B3 as [B3 | B3]; [rewrite B, B3 in L2; lra | exact B3]. }
  split; [exact Hone |]. rewrite Hone in T3. lra.
Qed.

Lemma X5_witness :
  exists m,
    build load_oils_data load_market_prices get_parameters true = inr m /\
    feasible m plan_veg1_oil3 /\
    20 <= plan_veg1_oil3 (Use "OIL3" 3).
Proof.
  run_build m Hb.
  assert (feasible m plan_veg1_oil3) as Hf by check_feasible Hb.
  split; [exact Hf |].
  destruct (X5_veg_requires_oil3 _ _ _ m plan_veg1_oil3 3%Z Hb Hf)
    as (qmin & Hq & _ & H); [in_sets Hb | left; reflexivity |].
  vm_compute in Hq. injection Hq as <-. exact H.
Defined.

(** X6. In discrete mode, in every feasible assignment, no oil is refined
    beyond the constant [big_m] = 250 tons in a period, whatever the
    refining caps in the parameters are, and the month's production is at
    most [big_m * max_ingredients_per_month]. *)
Theorem X6_big_m_caps_usage
    oils prices params m (rho : assignment) (t : Z) :
  build oils prices params true = inr m ->
  feasible m rho ->
  In t (m_T (decls m)) ->
  (forall o, In o (m_O (decls m)) -> rho (Use o t) <= big_m) /\
  exists q,
    params !! "max_ingredients_per_month" = Some q /\
    rho (Produce t) <= big_m * q.
Proof.
  intros Hb Hf Ht.
  assert (forall o, In o (m_O (decls m)) ->
            rho (Use o t) <= big_m * rho (IsUsed o t) /\
            rho (IsUsed o t) <= 1) as Hlink.
  { intros o Ho.
    destruct (discrete_link_facts _ _ _ _ _ o t Hb Hf Ho Ht)
      as (_ & _ & [B | B] & K & _); rewrite B; rewrite B in K; split; lra. }
  split.
  - intros o Ho. destruct (Hlink o Ho) as (K & B). unfold big_m in *. lra.
  - destruct (feasible_max_ingredients _ _ _ _ _ _ Hb Hf Ht) as (q & Hq & Hsum).
    exists q. split; [exact Hq |].
    rewrite (feasible_production _ _ _ _ _ _ _ Hb Hf Ht).
    assert (Qsum (fun o => rho (Use o t)) (m_O (decls m))
            <= Qsum (fun o => big_m * rho (IsUsed o t)) (m_O (decls m))) as Hle.
    { apply Qsum_le. intros o Ho. now apply Hlink. }
    rewrite Qsum_scale in Hle. unfold big_m in *. lra.
Qed.

Lemma X6_witness :
  exists m,
    build load_oils_data load_market_prices get_parameters true = inr m /\
    feasible m plan_oil3 /\
    plan_oil3 (Produce 6) <= 250 * 3.
Proof.
  run_build m Hb.
  assert (feasible m plan_oil3) as Hf by check_feasible Hb.
  split; [exact Hf |].
  destruct (X6_big_m_caps_usage _ _ _ m plan_oil3 6%Z Hb Hf)
    as (_ & q & Hq & H); [in_sets Hb |].
  vm_compute in Hq. injection Hq as <-. exact H.
Defined.

(** ** Inventory over the horizon *)

Lemma feasible_balance oils prices params flag m rho o t :
  build oils prices params flag = inr m -> feasible m rho ->
  In o (m_O (decls m)) -> In t (m_T (decls m)) ->
  exists t1 q0,
    first (m_T (decls m)) = inr t1 /\
    params !! "initial_stock" = Some q0 /\
    rho (Stock o t) ==
      (if Z.eqb t t1 then q0 else rho (Stock o (t - 1)))
      + rho (Buy o t) - rho (Use o t).
Proof.
  intros Hb Hf Ho Ht.
  destruct (build_inv _ _ _ _ _ Hb) as (_ & Hbal & _). simpl in Hbal.
  destruct (first_total _ _ Ht) as (t1 & Ht1).
  pose proof (first_In _ _ Ht1) as Ht1in.
  destruct (Constraint_inr_rule _ _ _ _ (o, t1) Hbal) as (c1 & Hc1 & _);
    [apply in_cross; auto |].
  simpl in Hc1. apply balance_rule_inr in Hc1 as (t1' & prev1 & Ht1' & Hp1 & _).
  rewrite Ht1 in Ht1'. injection Ht1' as <-. rewrite Z.eqb_refl in Hp1.
  destruct Hp1 as (q0 & Hq0 & _).
  destruct (Constraint_inr_rule _ _ _ _ (o, t) Hbal) as (c & Hc & Hin);
    [apply in_cross; auto |].
  simpl in Hc. apply balance_rule_inr in Hc as (t1' & prev & Ht1' & Hp & Hc).
  rewrite Ht1 in Ht1'. injection Ht1' as <-. injection Hc as ->.
  exists t1, q0. split; [exact Ht1 |]. split; [exact Hq0 |].
  pose proof (feasible_sat m rho _ Hf
    (in_continuous _ _ (or_introl (in_constraints_of _ _ _ Hin)))) as S.
  unfold sat in S. simpl in S. rewrite S.
  destruct (Z.eqb t t1).
  - destruct Hp as (q & Hq & ->). simpl.
    rewrite Hq0 in Hq. injection Hq as <-. reflexivity.
  - subst prev. reflexivity.
Qed.

Lemma feasible_final oils prices params flag m rho o :
  build oils prices params flag = inr m -> feasible m rho ->
  In o (m_O (decls m)) ->
  exists tn qn,
    last (m_T (decls m)) = inr tn /\
    params !! "target_final_stock" = Some qn /\
    rho (Stock o tn) == qn.
Proof.
  intros Hb Hf Ho.
  destruct (build_inv _ _ _ _ _ Hb) as (_ & _ & Hfin & _).
  destruct (Constraint_inr_rule _ _ _ _ o Hfin Ho) as (c & Hc & Hin).
  apply final_stock_rule_inr in Hc as (tn & qn & Htn & Hqn & Hc).
  injection Hc as ->. exists tn, qn. repeat (split; [assumption |]).
  exact (feasible_sat m rho _ Hf
    (in_continuous _ _ (or_intror (or_introl (in_constraints_of _ _ _ Hin))))).
Qed.

Lemma months_S t1 n :
  months t1 (S n) = (months t1 n ++ [(t1 + Z.of_nat n)%Z])%list.
Proof. unfold months. rewrite seq_S, map_app. reflexivity. Qed.

Lemma last_snoc (l : list Z) (x : Z) : last (l ++ [x])%list = inr x.
Proof.
  induction l as [| y l IH]; [reflexivity |].
  simpl. destruct (l ++ [x])%list eqn:E; [| exact IH].
  destruct l; discriminate.
Qed.

Lemma in_months t1 n t :
  In t (months t1 n) <-> exists k, (k < n)%nat /\ t = (t1 + Z.of_nat k)%Z.
Proof.
  unfold months. rewrite in_map_iff. split.
  - intros (k & <- & Hk). apply in_seq in Hk. exists k. split; [lia | reflexivity].
  - intros (k & Hk & ->). exists k. split; [reflexivity |]. apply in_seq. lia.
Qed.

Lemma Qsum_minus {A} (f g : A -> Q) (l : list A) :
  Qsum (fun x => f x - g x) l == Qsum f l - Qsum g l.
Proof. induction l as [| x l IH]; simpl; [ring | rewrite IH; ring]. Qed.

(** X7. When the periods of a built model are [n + 1] consecutive months
    in ascending order starting at [t1], every feasible assignment keeps,
    for every oil, the stock of month [t1 + k] equal to [initial_stock]
    plus what was bought minus what was refined in the months up to it;
    and over the whole horizon, purchases minus usage equal
    [target_final_stock - initial_stock]. *)
Theorem X7_cumulative_inventory
    oils prices params flag m (rho : assignment) (o : string)
    (t1 : Z) (n : nat) :
  build oils prices params flag = inr m ->
  feasible m rho ->
  In o (m_O (decls m)) ->
  m_T (decls m) = months t1 (S n) ->
  exists q0 qn,
    params !! "initial_stock" = Some q0 /\
    params !! "target_final_stock" = Some qn /\
    (forall k, (k <= n)%nat ->
       rho (Stock o (t1 + Z.of_nat k)) ==
       q0 + Qsum (fun t => rho (Buy o t) - rho (Use o t)) (months t1 (S k))) /\
    Qsum (fun t => rho (Buy o t)) (m_T (decls m))
    - Qsum (fun t => rho (Use o t)) (m_T (decls m)) == qn - q0.
Proof.
  intros Hb Hf Ho HT.
  assert (In t1 (m_T (decls m))) as Hin1.
  { rewrite HT. apply in_months. exists 0%nat. split; [lia |]. simpl. lia. }
  destruct (feasible_balance _ _ _ _ _ _ o t1 Hb Hf Ho Hin1)
    as (t1' & q0 & Hfirst & Hq0 & _).
  assert (t1' = t1) as ->.
  { rewrite HT in Hfirst. simpl in Hfirst. injection Hfirst as <-. lia. }
  destruct (feasible_final _ _ _ _ _ _ o Hb Hf Ho) as (tn & qn & Hlast & Hqn & Hfin).
  assert (tn = (t1 + Z.of_nat n)%Z) as ->.
  { rewrite HT, months_S, last_snoc in Hlast. now injection Hlast as <-. }
  exists q0, qn. split; [exact Hq0 |]. split; [exact Hqn |].
  assert (forall k, (k <= n)%nat ->
            rho (Stock o (t1 + Z.of_nat k)) ==
            q0 + Qsum (fun t => rho (Buy o t) - rho (Use o t))
                      (months t1 (S k))) as Hcum.
  { induction k as [| k IH]; intros Hk.
    - destruct (feasible_balance _ _ _ _ _ _ o (t1 + Z.of_nat 0)%Z Hb Hf Ho)
        as (t1' & q0' & Hfirst' & Hq0' & Hbal).
      { rewrite HT. apply in_months. exists 0%nat. split; [lia | reflexivity]. }
      rewrite Hfirst in Hfirst'. injection Hfirst' as <-.
      rewrite Hq0 in Hq0'. injection Hq0' as <-.
      replace (Z.eqb (t1 + Z.of_nat 0) t1) with true in Hbal
        by (symmetry; apply Z.eqb_eq; simpl; lia).
      rewrite Hbal. unfold months. simpl. ring.
    - destruct (feasible_balance _ _ _ _ _ _ o (t1 + Z.of_nat (S k))%Z Hb Hf Ho)
        as (t1' & q0' & Hfirst' & _ & Hbal).
      { rewrite HT. apply in_months. exists (S k). split; [lia | reflexivity]. }
      rewrite Hfirst in Hfirst'. injection Hfirst' as <-.
      replace (Z.eqb (t1 + Z.of_nat (S k)) t1) with false in Hbal
        by (symmetry; apply Z.eqb_neq; lia).
      replace (t1 + Z.of_nat (S k) - 1)%Z with (t1 + Z.of_nat k)%Z in Hbal by lia.
      rewrite Hbal, IH by lia.
      rewrite (months_S t1 (S k)), Qsum_app. simpl. ring. }
  split; [exact Hcum |].
  rewrite <- Qsum_minus, HT. rewrite <- Hfin, (Hcum n) by lia. ring.
Qed.

Lemma X7_witness :
  exists m,
    build load_oils_data load_market_prices get_parameters false = inr m /\
    feasible m plan_oil3 /\
    Qsum (fun t => plan_oil3 (Buy "OIL3" t)) (m_T (decls m))
    - Qsum (fun t => plan_oil3 (Use "OIL3" t)) (m_T (decls m)) == 500 - 500.
Proof.
  run_build m Hb.
  assert (feasible m plan_oil3) as Hf by check_feasible Hb.
  split; [exact Hf |].
  destruct (X7_cumulative_inventory _ _ _ _ m plan_oil3 "OIL3" 1%Z 5 Hb Hf)
    as (q0 & qn & Hq0 & Hqn & _ & H).
  - in_sets Hb.
  - rewrite (proj1 (build_sets _ _ _ _ _ Hb)). vm_compute. reflexivity.
  - vm_compute in Hq0. injection Hq0 as <-.
    vm_compute in Hqn. injection Hqn as <-. exact H.
Defined.

(** ** The model always admits the idle plan *)

Lemma Qsum_zero {A} (f : A -> Q) (l : list A) :
  (forall x, In x l -> f x == 0) -> Qsum f l == 0.
Proof.
  induction l as [| x l IH]; simpl; intros H; [reflexivity |].
  rewrite (H x) by now left. rewrite IH by (intros y Hy; apply H; now right).
  ring.
Qed.

Lemma in_family {I} (fam : family I) c :
  In c (constraints_of fam) -> exists i, In (i, c) fam.
Proof.
  unfold constraints_of. rewrite in_map_iff.
  intros ([i c'] & <- & Hin). eauto.
Qed.

(** X8. A built model is never infeasible when the parameters are
    consistent: if [initial_stock] and [target_final_stock] are the same
    level [s], with [0 <= s <= storage_capacity_per_oil], and the two
    refining caps and [max_ingredients_per_month] are non-negative, then
    the plan that buys and refines nothing and holds every stock at [s]
    (all indicators at [0]) satisfies every domain, bound and constraint
    of the model, in either mode. *)
Theorem X8_idle_plan_feasible oils prices params flag m (s : Q) :
  build oils prices params flag = inr m ->
  0 <= s ->
  (forall q, params !! "initial_stock" = Some q -> q == s) ->
  (forall q, params !! "target_final_stock" = Some q -> q == s) ->
  (forall q, params !! "storage_capacity_per_oil" = Some q -> s <= q) ->
  (forall q, params !! "max_veg_refine_per_month" = Some q -> 0 <= q) ->
  (forall q, params !! "max_nonveg_refine_per_month" = Some q -> 0 <= q) ->
  (forall q, params !! "max_ingredients_per_month" = Some q -> 0 <= q) ->
  feasible m (idle_plan s).
Proof.
  intros Hb Hs Hinit Htarget Hcap Hveg Hnon Hing.
  destruct (build_inv _ _ _ _ _ Hb)
    as (Hd & Hbal & Hfin & Hvegc & Hnonc & Hprod & Hmin & Hmax & Hl & _).
  simpl in *.
  split.
  - destruct (declare_inr _ _ _ _ _ Hd) as (cap & Hcapv & Hdecl).
    rewrite Hdecl. unfold all_vars. simpl.
    apply List.Forall_forall. intros d Hin. rewrite !in_app_iff in Hin.
    destruct Hin as [Hin | [Hin | [Hin | [Hin | Hin]]]].
    + apply (Var2_In Buy) in Hin as (o & t & _ & _ & ->).
      split; simpl; [lra | exact Logic.I].
    + apply (Var2_In Use) in Hin as (o & t & _ & _ & ->).
      split; simpl; [lra | exact Logic.I].
    + apply (Var2_In Stock) in Hin as (o & t & _ & _ & ->).
      split; simpl; [exact Hs |]. split; [exact Hs | now apply Hcap].
    + apply Var1_In in Hin as (t & _ & ->).
      split; simpl; [lra | exact Logic.I].
    + destruct flag; [| contradiction].
      apply (Var2_In IsUsed) in Hin as (o & t & _ & _ & ->).
      split; simpl; [left; reflexivity | exact Logic.I].
  - apply List.Forall_forall. intros c Hin.
    unfold all_constraints, continuous_constraints in Hin.
    rewrite !in_app_iff in Hin.
    destruct Hin as [[Hin | [Hin | [Hin | [Hin | [Hin | [Hin | Hin]]]]]] | Hin].
    + apply in_family in Hin as ([o t] & Hin).
      destruct (Constraint_inr_member _ _ _ _ _ _ Hbal Hin) as (_ & Hc).
      simpl in Hc. apply balance_rule_inr in Hc as (t1 & prev & _ & Hp & Hc).
      injection Hc as ->. unfold sat. simpl.
      destruct (Z.eqb t t1).
      * destruct Hp as (q & Hq & ->). simpl. rewrite (Hinit q Hq). ring.
      * subst prev. simpl. ring.
    + apply in_family in Hin as (o & Hin).
      destruct (Constraint_inr_member _ _ _ _ _ _ Hfin Hin) as (_ & Hc).
      apply final_stock_rule_inr in Hc as (tn & q & _ & Hq & Hc).
      injection Hc as ->. unfold sat. simpl. now rewrite (Htarget q Hq).
    + apply in_family in Hin as (t & Hin).
      destruct (Constraint_inr_member _ _ _ _ _ _ Hvegc Hin) as (_ & Hc).
      apply bind_inr in Hc as (q & Hq & Hc). apply getparam_inr in Hq.
      apply capacity_rule_inr in Hc as (us & -> & Hus).
      unfold sat. simpl. rewrite Hus, Qsum_zero by reflexivity. now apply Hveg.
    + apply in_family in Hin as (t & Hin).
      destruct (Constraint_inr_member _ _ _ _ _ _ Hnonc Hin) as (_ & Hc).
      apply bind_inr in Hc as (q & Hq & Hc). apply getparam_inr in Hq.
      apply capacity_rule_inr in Hc as (us & -> & Hus).
      unfold sat. simpl. rewrite Hus, Qsum_zero by reflexivity. now apply Hnon.
    + apply in_family in Hin as (t & Hin).
      destruct (Constraint_inr_member _ _ _ _ _ _ Hprod Hin) as (_ & Hc).
      apply production_def_inr in Hc as (us & Hc & Hus). injection Hc as ->.
      unfold sat. simpl. rewrite Hus, Qsum_zero by reflexivity. reflexivity.
    + apply in_family in Hin as (t & Hin).
      destruct (Constraint_inr_member _ _ _ _ _ _ Hmin Hin) as (_ & Hc).
      apply hardness_min_rule_inr in Hc as (total & q & Htot & _ & Hc).
      injection Hc as ->. unfold sat. simpl.
      rewrite (total_hardness_eval _ _ _ _ (idle_plan s) Htot).
      rewrite Qsum_zero by (intros; simpl; ring). lra.
    + apply in_family in Hin as (t & Hin).
      destruct (Constraint_inr_member _ _ _ _ _ _ Hmax Hin) as (_ & Hc).
      apply hardness_max_rule_inr in Hc as (total & q & Htot & _ & Hc).
      injection Hc as ->. unfold sat. simpl.
      rewrite (total_hardness_eval _ _ _ _ (idle_plan s) Htot).
      rewrite Qsum_zero by (intros; simpl; ring). lra.
    + destruct (logical m) as [l |] eqn:Hlog; [| contradiction].
      destruct flag; [| discriminate].
      destruct Hl as (l' & Hl & Hl'). injection Hl' as <-.
      destruct (build_logical_inv _ _ _ Hl) as (H1 & H2 & H3 & H4 & H5).
      unfold logical_constraints in Hin. rewrite !in_app_iff in Hin.
      destruct Hin as [Hin | [Hin | [Hin | [Hin | Hin]]]].
      * apply in_family in Hin as ([o t] & Hin).
        destruct (Constraint_inr_member _ _ _ _ _ _ H1 Hin) as (_ & Hc).
        simpl in Hc. apply link_rule_inr in Hc. injection Hc as ->.
        unfold sat. simpl. lra.
      * apply in_family in Hin as ([o t] & Hin).
        destruct (Constraint_inr_member _ _ _ _ _ _ H2 Hin) as (_ & Hc).
        simpl in Hc. apply min_usage_rule_inr in Hc as (q & _ & Hc).
        injection Hc as ->. unfold sat. simpl. lra.
      * apply in_family in Hin as (t & Hin).
        destruct (Constraint_inr_member _ _ _ _ _ _ H3 Hin) as (_ & Hc).
        unfold max_ingredients_rule in Hc.
        apply bind_inr in Hc as (ys & Hys & Hc).
        apply bind_inr in Hc as (q & Hq & Hc).
        apply getparam_inr in Hq. injection Hc as Hc.
        apply py_cmp_RCon in Hc. subst c. unfold sat. simpl.
        rewrite (eval_sum_mapM (idle_plan s) _ (fun _ => 0) _ _ Hys).
        -- rewrite Qsum_zero by reflexivity. now apply Hing.
        -- intros o e He. apply getitem_IsUsed_inr in He as ->. reflexivity.
      * apply in_family in Hin as (t & Hin).
        destruct (Constraint_inr_member _ _ _ _ _ _ H4 Hin) as (_ & Hc).
        apply logic_rule_inr in Hc as (Hc & _). injection Hc as ->.
        unfold sat. simpl. lra.
      * apply in_family in Hin as (t & Hin).
        destruct (Constraint_inr_member _ _ _ _ _ _ H5 Hin) as (_ & Hc).
        apply logic_rule_inr in Hc as (Hc & _). injection Hc as ->.
        unfold sat. simpl. lra.
Qed.

Lemma X8_witness :
  exists m,
    build two_oils two_months get_parameters false = inr m /\
    feasible m (idle_plan 500).
Proof.
  run_build m Hb.
  apply (X8_idle_plan_feasible two_oils two_months get_parameters false m 500 Hb);
    try (intros q Hq; vm_compute in Hq; injection Hq as <-);
    try reflexivity; try discriminate.
Defined.

(** ** When [build] succeeds *)

Lemma build_category_nonempty oils prices params flag m t :
  build oils prices params flag = inr m ->
  In t (m_T (decls m)) ->
  oils_of_type oils "Veg" <> [] /\ oils_of_type oils "NonVeg" <> [].
Proof.
  intros Hb Ht.
  destruct (build_inv _ _ _ _ _ Hb) as (_ & _ & _ & Hveg & Hnon & _).
  simpl in Hveg, Hnon.
  destruct (Constraint_inr_rule _ _ _ _ t Hveg Ht) as (c1 & Hc1 & _).
  destruct (Constraint_inr_rule _ _ _ _ t Hnon Ht) as (c2 & Hc2 & _).
  apply bind_inr in Hc1 as (q1 & _ & Hc1).
  apply bind_inr in Hc2 as (q2 & _ & Hc2).
  unfold capacity_rule in Hc1, Hc2.
  split; intros E.
  - rewrite E in Hc1. simpl in Hc1. discriminate.
  - rewrite E in Hc2. simpl in Hc2. discriminate.
Qed.

Lemma build_consecutive oils prices params flag m o :
  build oils prices params flag = inr m ->
  In o (m_O (decls m)) ->
  consecutive_months (p_index prices).
Proof.
  intros Hb Ho t Ht.
  destruct (build_inv _ _ _ _ _ Hb) as (Hd & Hbal & _). simpl in Hbal.
  destruct (declared_sets _ _ _ _ _ Hd) as (_ & HT & Hfirst).
  apply HT in Ht.
  destruct (Constraint_inr_rule _ _ _ _ (o, t) Hbal) as (c & Hc & _);
    [apply in_cross; auto |].
  simpl in Hc. unfold balance_rule in Hc.
  apply bind_inr in Hc as (t1 & Ht1 & Hc).
  apply bind_inr in Hc as (prev & Hprev & _).
  rewrite Hfirst in Ht1.
  destruct (p_index prices) as [| t0 l] eqn:E; [discriminate |].
  injection Ht1 as <-.
  destruct (Z.eqb t t0) eqn:Et.
  - left. apply Z.eqb_eq in Et. subst. reflexivity.
  - right. apply (proj1 (HT _)).
    destruct (declare_inr _ _ _ _ _ Hd) as (cap & _ & Hdecl).
    rewrite Hdecl in Hprev |- *. simpl in *.
    now apply (getitem_Var2_inv Stock Stock_inj) in Hprev.
Qed.

(** X11. For a non-empty catalog, [build] returns a model exactly when:
    every key of the selected mode is in the parameters; oil ids and month
    labels are unique and every oil has exactly one column in the price
    table; the price table has at least one month and every month but the
    first has its predecessor in the index; each of the categories Veg and
    NonVeg has a member oil; and, in discrete mode, VEG1, VEG2 and OIL3
    are in the catalog.  In every other case it raises. *)
Theorem X11_build_success_characterised oils prices params flag :
  oils_index oils <> [] ->
  (exists m, build oils prices params flag = inr m) <->
  ((forall k, In k (required_keys flag) -> exists q, params !! k = Some q) /\
   List.NoDup (oils_index oils) /\
   List.NoDup (p_index prices) /\
   (forall o, In o (oils_index oils) ->
              count_occ string_dec (p_columns prices) o = 1%nat) /\
   p_index prices <> [] /\
   consecutive_months (p_index prices) /\
   oils_of_type oils "Veg" <> [] /\
   oils_of_type oils "NonVeg" <> [] /\
   (flag = true ->
    In "VEG1" (oils_index oils) /\ In "VEG2" (oils_index oils) /\
    In "OIL3" (oils_index oils))).
Proof.
  intros HO. split.
  - intros (m & Hb).
    destruct (build_sets _ _ _ _ _ Hb) as (ET & EO).
    assert (exists o, In o (m_O (decls m))) as (o & Ho).
    { rewrite EO. destruct (oils_index oils) as [| o l]; [contradiction |].
      exists o. apply (Set_init_In String.eqb str_eqb_spec). now left. }
    destruct (build_periods_of_oils _ _ _ _ _ o Hb Ho) as (t & Ht).
    assert (p_index prices <> []) as HT.
    { intros E. rewrite ET, E in Ht. contradiction. }
    destruct (build_reads _ _ _ _ _ Hb HO HT) as (Hkeys & _).
    destruct (build_unique_labels _ _ _ _ _ Hb HO HT) as (HndO & HndT & Hcols).
    destruct (build_category_nonempty _ _ _ _ _ t Hb Ht) as (Hveg & Hnon).
    repeat (split; [assumption |]).
    split; [exact (build_consecutive _ _ _ _ _ o Hb Ho) |].
    repeat (split; [assumption |]).
    intros ->. exact (build_discrete_ids _ _ _ _ t Hb Ht).
  - intros (Hkeys & HndO & HndT & Hcols & HT & Hcons & Hveg & Hnon & Hids).
    now apply build_succeeds_unique.
Qed.

Lemma X11_witness :
  consecutive_months (p_index load_market_prices) /\
  oils_of_type load_oils_data "Veg" <> [].
Proof.
  assert (oils_index load_oils_data <> []) as H3 by (vm_compute; discriminate).
  destruct (proj1 (X11_build_success_characterised load_oils_data
                     load_market_prices get_parameters true H3))
    as (_ & _ & _ & _ & _ & Hcons & Hveg & _).
  - destruct (build load_oils_data load_market_prices get_parameters true)
      as [e | m] eqn:Hb; [vm_compute in Hb; discriminate | eauto].
  - split; assumption.
Defined.

(** ** Every variable a model mentions is declared *)

Section Closed.
Variable b : Block.

Local Abbreviation closed e := (incl (expr_vars e) (declared_vars b)).

Lemma closed_Num q : closed (Num q).
Proof. apply incl_nil_l. Qed.

Lemma closed_py_add x y : closed x -> closed y -> closed (py_add x y).
Proof.
  intros Hx Hy. destruct x, y;
    first [apply incl_nil_l | apply incl_app; assumption].
Qed.

Lemma closed_py_sub x y : closed x -> closed y -> closed (py_sub x y).
Proof.
  intros Hx Hy. destruct x, y;
    first [apply incl_nil_l | apply incl_app; assumption].
Qed.

Lemma closed_py_mul x y : closed x -> closed y -> closed (py_mul x y).
Proof.
  intros Hx Hy. destruct x, y;
    first [apply incl_nil_l | apply incl_app; assumption].
Qed.

Lemma closed_fold_py_add l a :
  closed a -> Forall (fun e => closed e) l -> closed (fold_left py_add l a).
Proof.
  revert a. induction l as [| x l IH]; simpl; intros a Ha Hl; [exact Ha |].
  apply List.Forall_cons_iff in Hl as (Hx & Hl).
  apply IH; [now apply closed_py_add | exact Hl].
Qed.

Lemma closed_py_sum l : Forall (fun e => closed e) l -> closed (py_sum l).
Proof. intros H. apply closed_fold_py_add; [apply closed_Num | exact H]. Qed.

Lemma closed_mapM {A} (f : A -> M expr) l es :
  mapM f l = inr es ->
  (forall x e, f x = inr e -> closed e) ->
  Forall (fun e => closed e) es.
Proof.
  intros H Hf. apply mapM_inr_Forall2 in H.
  induction H as [| x y l r Hxy _ IH]; constructor; eauto.
Qed.

Lemma closed_getitem component v e :
  incl component (all_vars b) -> getitem component v = inr e -> closed e.
Proof.
  intros Hincl H. apply getitem_inr in H as (-> & d & Hd & <-).
  intros v [<- | []]. unfold declared_vars. apply in_map. now apply Hincl.
Qed.

Lemma incl_Buy : incl (m_Buy b) (all_vars b).
Proof. intros d H. unfold all_vars. rewrite !in_app_iff. tauto. Qed.

Lemma incl_Use : incl (m_Use b) (all_vars b).
Proof. intros d H. unfold all_vars. rewrite !in_app_iff. tauto. Qed.

Lemma incl_Stock : incl (m_Stock b) (all_vars b).
Proof. intros d H. unfold all_vars. rewrite !in_app_iff. tauto. Qed.

Lemma incl_Produce : incl (m_Produce b) (all_vars b).
Proof. intros d H. unfold all_vars. rewrite !in_app_iff. tauto. Qed.

Lemma closed_getitem_IsUsed o t e : getitem_IsUsed b o t = inr e -> closed e.
Proof.
  unfold getitem_IsUsed. destruct (m_IsUsed b) as [c |] eqn:E; [| discriminate].
  apply closed_getitem. intros d H. unfold all_vars. rewrite E, !in_app_iff.
  tauto.
Qed.

Lemma closed_py_cmp r x y c :
  closed x -> closed y -> py_cmp r x y = RCon c ->
  incl (constraint_vars c) (declared_vars b).
Proof.
  intros Hx Hy H. apply py_cmp_RCon in H. subst c.
  unfold constraint_vars. simpl. now apply incl_app.
Qed.
End Closed.

Create HintDb closed_db.

#[local] Hint Resolve closed_Num closed_py_add closed_py_sub closed_py_mul
  closed_py_sum incl_Buy incl_Use incl_Stock incl_Produce : closed_db.

(** Split every bind of a successful rule and turn each successful lookup
    into the fact that its result mentions declared variables only. *)
Ltac split_rule H :=
  repeat (let x := fresh "x" in
          let Hx := fresh "Hx" in
          apply bind_inr in H as (x & Hx & H)).

Ltac closed_leaves b :=
  repeat match goal with
         | H : getitem (m_Buy b) _ = inr _ |- _ =>
             apply (closed_getitem b _ _ _ (incl_Buy b)) in H
         | H : getitem (m_Use b) _ = inr _ |- _ =>
             apply (closed_getitem b _ _ _ (incl_Use b)) in H
         | H : getitem (m_Stock b) _ = inr _ |- _ =>
             apply (closed_getitem b _ _ _ (incl_Stock b)) in H
         | H : getitem (m_Produce b) _ = inr _ |- _ =>
             apply (closed_getitem b _ _ _ (incl_Produce b)) in H
         | H : getitem_IsUsed b _ _ = inr _ |- _ =>
             apply (closed_getitem_IsUsed b) in H
         end.

Lemma ret_inr {A} (a a' : A) : ret a = inr a' -> a = a'.
Proof. intros H. now injection H. Qed.

Lemma closed_rules oils prices params b :
  (forall o t c, balance_rule params b o t = inr (RCon c) ->
     incl (constraint_vars c) (declared_vars b)) /\
  (forall o c, final_stock_rule params b o = inr (RCon c) ->
     incl (constraint_vars c) (declared_vars b)) /\
  (forall t ty limit c, capacity_rule oils b t ty limit = inr (RCon c) ->
     incl (constraint_vars c) (declared_vars b)) /\
  (forall t c, production_def b t = inr (RCon c) ->
     incl (constraint_vars c) (declared_vars b)) /\
  (forall t c, hardness_min_rule oils params b t = inr (RCon c) ->
     incl (constraint_vars c) (declared_vars b)) /\
  (forall t c, hardness_max_rule oils params b t = inr (RCon c) ->
     incl (constraint_vars c) (declared_vars b)) /\
  (forall e, objective_rule prices params b = inr e ->
     incl (expr_vars e) (declared_vars b)).
Proof.
  assert (forall t total, total_hardness oils b t = inr total ->
            incl (expr_vars total) (declared_vars b)) as Htotal.
  { intros t total H. unfold total_hardness in H. split_rule H.
    apply ret_inr in H; subst. apply closed_py_sum.
    apply (closed_mapM b _ _ _ Hx). intros o e He. split_rule He.
    apply ret_inr in He; subst. closed_leaves b. auto with closed_db. }
  repeat split.
  - intros o t c H. unfold balance_rule in H. split_rule H.
    apply ret_inr in H. closed_leaves b.
    apply (closed_py_cmp b _ _ _ _) in H; auto with closed_db.
    apply closed_py_sub; [apply closed_py_add |]; auto.
    destruct (Z.eqb t x).
    + split_rule Hx0. apply ret_inr in Hx0; subst. apply closed_Num.
    + closed_leaves b. exact Hx0.
  - intros o c H. unfold final_stock_rule in H. split_rule H.
    apply ret_inr in H. closed_leaves b.
    apply (closed_py_cmp b _ _ _ _) in H; auto with closed_db.
  - intros t ty limit c H. unfold capacity_rule in H. split_rule H.
    apply ret_inr in H.
    apply (closed_py_cmp b _ _ _ _) in H; auto with closed_db.
    apply closed_py_sum. apply (closed_mapM b _ _ _ Hx).
    intros o e He. closed_leaves b. exact He.
  - intros t c H. unfold production_def in H. split_rule H.
    apply ret_inr in H. closed_leaves b.
    apply (closed_py_cmp b _ _ _ _) in H; auto with closed_db.
    apply closed_py_sum. apply (closed_mapM b _ _ _ Hx0).
    intros o e He. closed_leaves b. exact He.
  - intros t c H. unfold hardness_min_rule in H. split_rule H.
    apply ret_inr in H. closed_leaves b. apply Htotal in Hx.
    apply (closed_py_cmp b _ _ _ _) in H; auto with closed_db.
  - intros t c H. unfold hardness_max_rule in H. split_rule H.
    apply ret_inr in H. closed_leaves b. apply Htotal in Hx.
    apply (closed_py_cmp b _ _ _ _) in H; auto with closed_db.
  - intros e H. unfold objective_rule in H. split_rule H.
    apply ret_inr in H; subst.
    apply closed_py_sub; [apply closed_py_sub |]; apply closed_py_sum.
    + apply (closed_mapM b _ _ _ Hx). intros t e He. split_rule He.
      apply ret_inr in He; subst. closed_leaves b. auto with closed_db.
    + apply (closed_mapM b _ _ _ Hx0). intros ot e He. split_rule He.
      apply ret_inr in He; subst. closed_leaves b. auto with closed_db.
    + apply (closed_mapM b _ _ _ Hx1). intros ot e He. split_rule He.
      apply ret_inr in He; subst. closed_leaves b. auto with closed_db.
Qed.

Lemma closed_logical_rules params b :
  (forall o t c, link_rule b o t = inr (RCon c) ->
     incl (constraint_vars c) (declared_vars b)) /\
  (forall o t c, min_usage_rule params b o t = inr (RCon c) ->
     incl (constraint_vars c) (declared_vars b)) /\
  (forall t c, max_ingredients_rule params b t = inr (RCon c) ->
     incl (constraint_vars c) (declared_vars b)) /\
  (forall t c, logic_veg1_rule b t = inr (RCon c) ->
     incl (constraint_vars c) (declared_vars b)) /\
  (forall t c, logic_veg2_rule b t = inr (RCon c) ->
     incl (constraint_vars c) (declared_vars b)).
Proof.
  repeat split.
  - intros o t c H. unfold link_rule in H. split_rule H.
    apply ret_inr in H. closed_leaves b.
    apply (closed_py_cmp b _ _ _ _) in H; auto with closed_db.
  - intros o t c H. unfold min_usage_rule in H. split_rule H.
    apply ret_inr in H. closed_leaves b.
    apply (closed_py_cmp b _ _ _ _) in H; auto with closed_db.
  - intros t c H. unfold max_ingredients_rule in H. split_rule H.
    apply ret_inr in H.
    apply (closed_py_cmp b _ _ _ _) in H; auto with closed_db.
    apply closed_py_sum. apply (closed_mapM b _ _ _ Hx).
    intros o e He. closed_leaves b. exact He.
  - intros t c H. unfold logic_veg1_rule in H. split_rule H.
    apply ret_inr in H. closed_leaves b.
    apply (closed_py_cmp b _ _ _ _) in H; auto with closed_db.
  - intros t c H. unfold logic_veg2_rule in H. split_rule H.
    apply ret_inr in H. closed_leaves b.
    apply (closed_py_cmp b _ _ _ _) in H; auto with closed_db.
Qed.

(** X12. A built model is closed: every variable that one of its
    constraints or its objective mentions is a declared variable of the
    model.  The only binary variables are the [IsUsed[o,t]]; in continuous
    mode every declared variable is a non-negative real and no constraint
    mentions an [IsUsed] variable, so the model is a linear program. *)
Theorem X12_variables_declared oils prices params flag m :
  build oils prices params flag = inr m ->
  (forall c, In c (all_constraints m) ->
     incl (constraint_vars c) (declared_vars (decls m))) /\
  incl (expr_vars (fst (Objective m))) (declared_vars (decls m)) /\
  (forall d, In d (all_vars (decls m)) -> vd_domain d = Binary ->
     exists o t, vd_var d = IsUsed o t) /\
  (flag = false ->
   (forall d, In d (all_vars (decls m)) -> vd_domain d = NonNegativeReals) /\
   (forall c o t, In c (all_constraints m) ->
      ~ In (IsUsed o t) (constraint_vars c))).
Proof.
  intros Hb.
  destruct (build_inv _ _ _ _ _ Hb)
    as (Hd & Hbal & Hfin & Hveg & Hnon & Hprod & Hmin & Hmax & Hl & Hobj & _).
  simpl in *.
  destruct (closed_rules oils prices params (decls m))
    as (C1 & C2 & C3 & C4 & C5 & C6 & C7).
  destruct (closed_logical_rules params (decls m)) as (L1 & L2 & L3 & L4 & L5).
  assert (forall c, In c (all_constraints m) ->
            incl (constraint_vars c) (declared_vars (decls m))) as Hclosed.
  { intros c Hin. unfold all_constraints, continuous_constraints in Hin.
    rewrite !in_app_iff in Hin.
    destruct Hin as [[Hin | [Hin | [Hin | [Hin | [Hin | [Hin | Hin]]]]]] | Hin].
    - apply in_family in Hin as ([o t] & Hin).
      destruct (Constraint_inr_member _ _ _ _ _ _ Hbal Hin) as (_ & Hc). eauto.
    - apply in_family in Hin as (o & Hin).
      destruct (Constraint_inr_member _ _ _ _ _ _ Hfin Hin) as (_ & Hc). eauto.
    - apply in_family in Hin as (t & Hin).
      destruct (Constraint_inr_member _ _ _ _ _ _ Hveg Hin) as (_ & Hc).
      apply bind_inr in Hc as (q & _ & Hc). eauto.
    - apply in_family in Hin as (t & Hin).
      destruct (Constraint_inr_member _ _ _ _ _ _ Hnon Hin) as (_ & Hc).
      apply bind_inr in Hc as (q & _ & Hc). eauto.
    - apply in_family in Hin as (t & Hin).
      destruct (Constraint_inr_member _ _ _ _ _ _ Hprod Hin) as (_ & Hc). eauto.
    - apply in_family in Hin as (t & Hin).
      destruct (Constraint_inr_member _ _ _ _ _ _ Hmin Hin) as (_ & Hc). eauto.
    - apply in_family in Hin as (t & Hin).
      destruct (Constraint_inr_member _ _ _ _ _ _ Hmax Hin) as (_ & Hc). eauto.
    - destruct (logical m) as [l |] eqn:Hlog; [| contradiction].
      destruct flag; [| discriminate].
      destruct Hl as (l' & Hl & Hl'). injection Hl' as <-.
      destruct (build_logical_inv _ _ _ Hl) as (H1 & H2 & H3 & H4 & H5).
      unfold logical_constraints in Hin. rewrite !in_app_iff in Hin.
      destruct Hin as [Hin | [Hin | [Hin | [Hin | Hin]]]].
      + apply in_family in Hin as ([o t] & Hin).
        destruct (Constraint_inr_member _ _ _ _ _ _ H1 Hin) as (_ & Hc). eauto.
      + apply in_family in Hin as ([o t] & Hin).
        destruct (Constraint_inr_member _ _ _ _ _ _ H2 Hin) as (_ & Hc). eauto.
      + apply in_family in Hin as (t & Hin).
        destruct (Constraint_inr_member _ _ _ _ _ _ H3 Hin) as (_ & Hc). eauto.
      + apply in_family in Hin as (t & Hin).
        destruct (Constraint_inr_member _ _ _ _ _ _ H4 Hin) as (_ & Hc). eauto.
      + apply in_family in Hin as (t & Hin).
        destruct (Constraint_inr_member _ _ _ _ _ _ H5 Hin) as (_ & Hc). eauto. }
  destruct (declare_inr _ _ _ _ _ Hd) as (cap & _ & Hdecl).
  assert (forall d, In d (all_vars (decls m)) ->
            (vd_domain d = NonNegativeReals /\
             forall o t, vd_var d <> IsUsed o t) \/
            (flag = true /\ vd_domain d = Binary /\
             exists o t, vd_var d = IsUsed o t)) as Hvars.
  { intros d Hin. rewrite Hdecl in Hin. unfold all_vars in Hin. simpl in Hin.
    rewrite !in_app_iff in Hin.
    destruct Hin as [Hin | [Hin | [Hin | [Hin | Hin]]]].
    - apply (Var2_In Buy) in Hin as (o & t & _ & _ & ->).
      left. split; [reflexivity | discriminate].
    - apply (Var2_In Use) in Hin as (o & t & _ & _ & ->).
      left. split; [reflexivity | discriminate].
    - apply (Var2_In Stock) in Hin as (o & t & _ & _ & ->).
      left. split; [reflexivity | discriminate].
    - apply Var1_In in Hin as (t & _ & ->).
      left. split; [reflexivity | discriminate].
    - destruct flag; [| contradiction].
      apply (Var2_In IsUsed) in Hin as (o & t & _ & _ & ->).
      right. simpl. eauto. }
  split; [exact Hclosed |]. split; [now apply C7 |]. split.
  - intros d Hin Hbin.
    destruct (Hvars d Hin) as [(Hdom & _) | (_ & _ & H)]; [congruence | exact H].
  - intros ->. split.
    + intros d Hin.
      destruct (Hvars d Hin) as [(Hdom & _) | (H & _)];
        [exact Hdom | discriminate].
    + intros c o t Hin Hmention.
      apply (Hclosed c Hin) in Hmention.
      unfold declared_vars in Hmention.
      apply in_map_iff in Hmention as (d & Hv & Hd').
      destruct (Hvars d Hd') as [(_ & Hne) | (H & _)];
        [exact (Hne o t Hv) | discriminate].
Qed.

Lemma X12_witness :
  exists m,
    build load_oils_data load_market_prices get_parameters false = inr m /\
    forall c, In c (all_constraints m) ->
              ~ In (IsUsed "OIL3" 1) (constraint_vars c).
Proof.
  run_build m Hb.
  destruct (X12_variables_declared _ _ _ _ m Hb) as (_ & _ & _ & H).
  destruct (H Logic.eq_refl) as (_ & Hno).
  intros c Hin. now apply Hno.
Defined.

(** ** The profit is bounded *)

Lemma production_le_caps oils prices params flag m rho t cv cn :
  build oils prices params flag = inr m -> feasible m rho ->
  In t (m_T (decls m)) ->
  List.NoDup (oils_index oils) ->
  (forall r, In r oils -> type r = "Veg" \/ type r = "NonVeg") ->
  params !! "max_veg_refine_per_month" = Some cv ->
  params !! "max_nonveg_refine_per_month" = Some cn ->
  rho (Produce t) <= cv + cn.
Proof.
  intros Hb Hf Ht Hnd Hty Hcv Hcn.
  destruct (feasible_capacity_totals _ _ _ _ _ _ _ Hb Hf Ht)
    as (cv' & cn' & Hcv' & Hcn' & Hv & Hn).
  rewrite Hcv in Hcv'. injection Hcv' as <-.
  rewrite Hcn in Hcn'. injection Hcn' as <-.
  rewrite (feasible_production _ _ _ _ _ _ _ Hb Hf Ht).
  rewrite (proj2 (build_sets _ _ _ _ _ Hb)).
  rewrite (Set_init_id String.eqb str_eqb_spec _ Hnd).
  rewrite (Qsum_by_type oils _ Hty). lra.
Qed.

Lemma Qsum_const {A} (c : Q) (l : list A) :
  Qsum (fun _ => c) l == inject_Z (Z.of_nat (length l)) * c.
Proof.
  induction l as [| x l IH]; [simpl; ring |].
  change (Qsum (fun _ => c) (x :: l)) with (c + Qsum (fun _ => c) l).
  change (length (x :: l)) with (S (length l)).
  rewrite IH, Nat2Z.inj_succ. unfold Z.succ. rewrite inject_Z_plus. ring.
Qed.

(** X13. The profit of a feasible assignment cannot grow without bound:
    when the sale price, the storage cost and the purchase prices are
    non-negative, the catalog labels are unique and every oil is of type
    Veg or NonVeg, the objective value of every feasible assignment is at
    most (number of periods) x (sum of the two refining caps) x (sale
    price). *)
Theorem X13_profit_bounded
    oils prices params flag m (rho : assignment) (sale storage cv cn : Q) :
  build oils prices params flag = inr m ->
  feasible m rho ->
  params !! "product_sales_price" = Some sale ->
  params !! "storage_cost_per_ton" = Some storage ->
  params !! "max_veg_refine_per_month" = Some cv ->
  params !! "max_nonveg_refine_per_month" = Some cn ->
  0 <= sale -> 0 <= storage ->
  (forall o t, In o (m_O (decls m)) -> In t (m_T (decls m)) ->
     0 <= p_cell prices t o) ->
  List.NoDup (oils_index oils) ->
  (forall r, In r oils -> type r = "Veg" \/ type r = "NonVeg") ->
  objective_value m rho
    <= inject_Z (Z.of_nat (length (m_T (decls m)))) * ((cv + cn) * sale).
Proof.
  intros Hb Hf Hsale Hstorage Hcv Hcn Hs0 Hst0 Hprice Hnd Hty.
  destruct (build_inv _ _ _ _ _ Hb)
    as (_ & _ & _ & _ & _ & _ & _ & _ & _ & Hobj & _).
  destruct (objective_rule_inr _ _ _ _ _ _ Hobj Hsale Hstorage)
    as (revenue & purchase_cost & storage_cost & He & Hev).
  destruct (Hev rho) as (HR & HP & HS).
  unfold objective_value. rewrite He, !eval_py_sub, HR, HP, HS.
  assert (forall o t, In (o, t) (cross (m_O (decls m)) (m_T (decls m))) ->
            0 <= rho (Buy o t) /\ 0 <= rho (Stock o t)) as Hnn.
  { intros o t Hin. apply in_cross in Hin as (Ho & Ht).
    destruct (feasible_nonneg _ _ _ _ _ _ o t Hb Hf Ho Ht) as (H1 & _ & H3 & _).
    auto. }
  assert (0 <= Qsum (fun ot => rho (Buy (fst ot) (snd ot))
                               * p_cell prices (snd ot) (fst ot))
                    (cross (m_O (decls m)) (m_T (decls m)))) as HP0.
  { apply Qsum_nonneg. intros [o t] Hin. simpl.
    apply Qmult_le_0_compat; [now apply Hnn |].
    apply in_cross in Hin as (Ho & Ht). now apply Hprice. }
  assert (0 <= Qsum (fun ot => rho (Stock (fst ot) (snd ot)) * storage)
                    (cross (m_O (decls m)) (m_T (decls m)))) as HS0.
  { apply Qsum_nonneg. intros [o t] Hin. simpl.
    apply Qmult_le_0_compat; [now apply Hnn | exact Hst0]. }
  assert (Qsum (fun t => rho (Produce t) * sale) (m_T (decls m))
          <= Qsum (fun _ => (cv + cn) * sale) (m_T (decls m))) as HR0.
  { apply Qsum_le. intros t Ht.
    apply Qmult_le_compat_r; [| exact Hs0].
    exact (production_le_caps _ _ _ _ _ _ _ _ _ Hb Hf Ht Hnd Hty Hcv Hcn). }
  rewrite Qsum_const in HR0. lra.
Qed.

Lemma X13_witness :
  exists m,
    build load_oils_data load_market_prices get_parameters false = inr m /\
    feasible m plan_oil3 /\
    objective_value m plan_oil3 <= 6 * ((200 + 250) * 150).
Proof.
  run_build m Hb.
  assert (feasible m plan_oil3) as Hf by check_feasible Hb.
  split; [exact Hf |].
  pose proof (X13_profit_bounded _ _ _ _ m plan_oil3 150 5 200 250 Hb Hf) as H.
  rewrite (proj1 (build_sets _ _ _ _ _ Hb)) in H.
  apply H; try (vm_compute; reflexivity); try (vm_compute; discriminate).
  - intros o t Ho Ht.
    rewrite (proj2 (build_sets _ _ _ _ _ Hb)) in Ho.
    vm_compute in Ho, Ht.
    each_member Ho ltac:(each_member Ht ltac:(vm_compute; discriminate)).
  - vm_compute. literal_NoDup.
  - intros r Hr. each_member Hr ltac:(simpl; tauto).
Defined.

(** ** When [solve] succeeds *)

Lemma mapM_inr_iff_total {A B} (f : A -> M B) (l : list A) :
  (exists r, mapM f l = inr r) <-> (forall x, In x l -> exists y, f x = inr y).
Proof.
  split.
  - intros (r & Hr) x Hx.
    destruct (mapM_inr_In _ _ _ x Hr Hx) as (y & Hy & _). eauto.
  - apply mapM_total.
Qed.

(** X14. [solve] returns normally exactly when a model is stored, the
    solver returns, and the solver has left a value in every [Buy[o,t]],
    [Use[o,t]] and [Stock[o,t]] of the model (the values of [Produce] and
    [IsUsed] are not read); otherwise it raises. *)
Theorem X14_solve_succeeds_iff
    (results : Type)
    (solver : option Model -> M (results * (var -> option Q)))
    (self : Instance) (result : results) :
  snd (solve results solver self) = inr result <->
  exists m values,
    self_model self = Some m /\
    solver (Some m) = inr (result, values) /\
    forall o t, In o (m_O (decls m)) -> In t (m_T (decls m)) ->
      values (Buy o t) <> None /\ values (Use o t) <> None /\
      values (Stock o t) <> None.
Proof.
  assert (forall m values,
            (exists rows, extract m values = inr rows) <->
            (forall o t, In o (m_O (decls m)) -> In t (m_T (decls m)) ->
               values (Buy o t) <> None /\ values (Use o t) <> None /\
               values (Stock o t) <> None)) as Hextract.
  { intros m values. unfold extract. split.
    - intros (rows & H) o t Ho Ht.
      apply bind_inr in H as (rs & Hrs & _).
      destruct (mapM_inr_In _ _ _ t Hrs Ht) as (r & Hr & _).
      destruct (mapM_inr_In _ _ _ o Hr Ho) as (row & Hrow & _).
      apply bind_inr in Hrow as (bq & Hb & Hrow).
      apply bind_inr in Hrow as (uq & Hu & Hrow).
      apply bind_inr in Hrow as (sq & Hs & _).
      unfold value in Hb, Hu, Hs.
      destruct (values (Buy o t)); [| discriminate].
      destruct (values (Use o t)); [| discriminate].
      destruct (values (Stock o t)); [| discriminate].
      repeat split; discriminate.
    - intros Hall.
      destruct (mapM_total
                  (fun t => mapM (fun o =>
                     bq <- value values (Buy o t) ;;
                     uq <- value values (Use o t) ;;
                     sq <- value values (Stock o t) ;;
                     ret {| Month := t; Oil := o; row_Buy := bq;
                            row_Use := uq; row_Stock := sq |})
                     (m_O (decls m))) (m_T (decls m))) as (rs & Hrs).
      + intros t Ht. apply mapM_total. intros o Ho.
        destruct (Hall o t Ho Ht) as (Hb & Hu & Hs). unfold value.
        destruct (values (Buy o t)); [| contradiction].
        destruct (values (Use o t)); [| contradiction].
        destruct (values (Stock o t)); [| contradiction].
        simpl. eauto.
      + rewrite Hrs. simpl. eauto. }
  unfold solve. split.
  - intros H.
    destruct (self_model self) as [m |].
    + destruct (solver (Some m)) as [e | [result' values]] eqn:Hs;
        [discriminate |].
      destruct (extract m values) as [e | rows] eqn:Hx; [discriminate |].
      simpl in H. injection H as ->.
      exists m, values. split; [reflexivity |]. split; [exact Hs |].
      exact (proj1 (Hextract m values) (ex_intro _ rows Hx)).
    + destruct (solver None) as [e | [result' values]]; discriminate.
  - intros (m & values & -> & -> & Hall).
    destruct (proj2 (Hextract m values) Hall) as (rows & ->). reflexivity.
Qed.

Lemma X14_witness :
  exists m,
    build load_oils_data load_market_prices get_parameters false = inr m /\
    snd (solve unit (solver_stub plan_idle)
           {| self_oils := load_oils_data;
              self_prices := load_market_prices;
              self_params := get_parameters;
              self_model := Some m;
              self_values := fun _ => None;
              self_result_data := [] |}) = inr tt.
Proof.
  run_build m Hb.
  apply (proj2 (X14_solve_succeeds_iff unit (solver_stub plan_idle) _ tt)).
  exists m, (fun v => Some (plan_idle v)).
  repeat split; discriminate.
Defined.
